(** * ol-grid-sources: grid sampling, interpolation and tile strides

    A shallow embedding of the numeric core of the repository
    (src/lib/factories.ts, src/lib/utils.ts, src/sources/*.ts).

    JavaScript numbers are modelled as the rationals extended with the two
    infinities and NaN.  Arithmetic on finite values is exact (no binary
    rounding) and the two zeros are identified (a division by zero takes the
    zero as positive); everything else follows the ECMAScript rules:
    NaN is absorbing, comparisons with NaN are false, [0 * Infinity] is NaN. *)

From Stdlib Require Import QArith Qround Qabs ZArith List Bool Lia Lqa.
From Stdlib Require String.
Import ListNotations.

Open Scope Q_scope.

(* ------------------------------------------------------------------ *)
(** ** JavaScript numbers *)

Module JS.

Inductive num : Type :=
| NaN
| PInf
| NInf
| Fin (q : Q).

Definition of_Z (z : Z) : num := Fin (inject_Z z).

(** The values a model-level equality has to identify: a rational has many
    representations as a fraction. *)
Definition num_eq (a b : num) : Prop :=
  match a, b with
  | NaN, NaN => True
  | PInf, PInf => True
  | NInf, NInf => True
  | Fin p, Fin q => p == q
  | _, _ => False
  end.

Definition is_finite (a : num) : bool :=
  match a with Fin _ => true | _ => false end.

(** [isNaN(x)] *)
Definition isNaN (a : num) : bool :=
  match a with NaN => true | _ => false end.

(** Truthiness of a number: everything but 0 and NaN. *)
Definition truthy (a : num) : bool :=
  match a with
  | NaN => false
  | Fin q => negb (Qeq_bool q 0)
  | _ => true
  end.

(** [a || b] on numbers. *)
Definition or_else (a b : num) : num := if truthy a then a else b.

(** [a ?? b] where the left operand may be undefined. *)
Definition nullish (a : option num) (b : num) : num :=
  match a with Some x => x | None => b end.

Definition neg (a : num) : num :=
  match a with
  | NaN => NaN
  | PInf => NInf
  | NInf => PInf
  | Fin q => Fin (- q)
  end.

Definition add (a b : num) : num :=
  match a, b with
  | NaN, _ | _, NaN => NaN
  | PInf, NInf | NInf, PInf => NaN
  | PInf, _ | _, PInf => PInf
  | NInf, _ | _, NInf => NInf
  | Fin p, Fin q => Fin (p + q)
  end.

Definition sub (a b : num) : num := add a (neg b).

(** An infinity with the sign of [c] times the sign of the infinity [pos];
    a zero factor gives NaN. *)
Definition inf_signed (pos : bool) (c : comparison) : num :=
  match c with
  | Eq => NaN
  | Gt => if pos then PInf else NInf
  | Lt => if pos then NInf else PInf
  end.

Definition mul (a b : num) : num :=
  match a, b with
  | NaN, _ | _, NaN => NaN
  | PInf, PInf | NInf, NInf => PInf
  | PInf, NInf | NInf, PInf => NInf
  | PInf, Fin q | Fin q, PInf => inf_signed true (q ?= 0)
  | NInf, Fin q | Fin q, NInf => inf_signed false (q ?= 0)
  | Fin p, Fin q => Fin (p * q)
  end.

Definition div (a b : num) : num :=
  match a, b with
  | NaN, _ | _, NaN => NaN
  | PInf, PInf | PInf, NInf | NInf, PInf | NInf, NInf => NaN
  | PInf, Fin q => if Qle_bool 0 q then PInf else NInf
  | NInf, Fin q => if Qle_bool 0 q then NInf else PInf
  | Fin _, PInf | Fin _, NInf => Fin 0
  | Fin p, Fin q =>
      if Qeq_bool q 0 then inf_signed true (p ?= 0) else Fin (p / q)
  end.

(** [a < b] and [a <= b]: false as soon as one side is NaN. *)
Definition lt (a b : num) : bool :=
  match a, b with
  | NaN, _ | _, NaN => false
  | NInf, NInf | PInf, _ | _, NInf => false
  | NInf, _ | _, PInf => true
  | Fin p, Fin q => negb (Qle_bool q p)
  end.

Definition le (a b : num) : bool :=
  match a, b with
  | NaN, _ | _, NaN => false
  | NInf, _ | _, PInf => true
  | PInf, _ | _, NInf => false
  | Fin p, Fin q => Qle_bool p q
  end.

Definition gt (a b : num) : bool := lt b a.
Definition ge (a b : num) : bool := le b a.

(** [Math.abs], [Math.floor], [Math.ceil], [Math.round] *)
Definition abs (a : num) : num :=
  match a with
  | NaN => NaN
  | PInf | NInf => PInf
  | Fin q => Fin (Qabs q)
  end.

Definition floor (a : num) : num :=
  match a with Fin q => of_Z (Qfloor q) | _ => a end.

Definition ceil (a : num) : num :=
  match a with Fin q => of_Z (Qceiling q) | _ => a end.

Definition round (a : num) : num :=
  match a with Fin q => of_Z (Qfloor (q + (1 # 2))) | _ => a end.

(** [Math.max(a, b)] and [Math.min(a, b)]: NaN if either argument is. *)
Definition max (a b : num) : num :=
  match a, b with
  | NaN, _ | _, NaN => NaN
  | _, _ => if lt a b then b else a
  end.

Definition min (a b : num) : num :=
  match a, b with
  | NaN, _ | _, NaN => NaN
  | _, _ => if lt b a then b else a
  end.

(** Reading [arr[i]] from an array of numbers.  A key that is not an index
    of the array yields [undefined]; every read in this code base is used in
    arithmetic (or in [isNaN]) straight away, where [undefined] is NaN. *)
Definition index_of (i : num) : option nat :=
  match i with
  | Fin q =>
      if Qeq_bool q (inject_Z (Qfloor q)) && (0 <=? Qfloor q)%Z
      then Some (Z.to_nat (Qfloor q))
      else None
  | _ => None
  end.

Definition get (arr : list num) (i : num) : num :=
  match index_of i with
  | Some n => nth n arr NaN
  | None => NaN
  end.

(** [arr.length] *)
Definition length (arr : list num) : num := of_Z (Z.of_nat (List.length arr)).

End JS.

Import JS.

Declare Scope js_scope.
Delimit Scope js_scope with js.
Bind Scope js_scope with num.
Infix "+" := add : js_scope.
Infix "-" := sub : js_scope.
Infix "*" := mul : js_scope.
Infix "/" := div : js_scope.
Infix "<?" := lt (at level 70, no associativity) : js_scope.
Infix "<=?" := le (at level 70, no associativity) : js_scope.
Infix ">=?" := ge (at level 70, no associativity) : js_scope.
Infix "||" := or_else : js_scope.
Notation "- x" := (neg x) : js_scope.
Infix "=n=" := num_eq (at level 70, no associativity).

Coercion of_Z : Z >-> num.

(* ------------------------------------------------------------------ *)
(** ** src/lib/utils.ts *)

(** The typed arrays handed to the sources.  A [Uint8Array] holds only
    integers 0..255; the README also admits [Float32Array] data, whose cells
    can hold NaN. *)
Definition Grid : Type := list num.

(** [InterpolationParams] of factories.ts *)
Record InterpolationParams : Type := mkParams {
  i11 : num;  (* top-left neighbor *)
  i12 : num;  (* bottom-left neighbor *)
  i21 : num;  (* top-right neighbor *)
  i22 : num;  (* bottom-right neighbor *)
  rx : num;
  ry : num
}.

(** A [[min, max]] pair. *)
Definition Range : Type := (num * num)%type.

Definition interpolateGridValue (grid : Grid) (params : InterpolationParams)
  : num :=
  let q11 := get grid (i11 params) in
  let q21 := get grid (i21 params) in
  let q12 := get grid (i12 params) in
  let q22 := get grid (i22 params) in
  let r1 := ((1%Z - rx params) * q11 + rx params * q21)%js in
  let r2 := ((1%Z - rx params) * q12 + rx params * q22)%js in
  ((1%Z - ry params) * r1 + ry params * r2)%js.

Definition quantize (value : num) (range : Range) : num :=
  (((value - fst range) * 255%Z) / (snd range - fst range))%js.

Definition dequantize (byte : num) (range : Range) : num :=
  ((byte * (snd range - fst range)) / 255%Z + fst range)%js.

Definition clamp (value lo hi : num) : num := max lo (min hi value).

(* ------------------------------------------------------------------ *)
(** ** src/lib/factories.ts *)

(** [Extent]: [[minX, minY, maxX, maxY]]. *)
Record Extent : Type := mkExtent {
  e0 : num;  (* minX / minLon *)
  e1 : num;  (* minY / minLat *)
  e2 : num;  (* maxX / maxLon *)
  e3 : num   (* maxY / maxLat *)
}.

Definition createCheckExtentFunc (extent : Extent) : num -> num -> bool :=
  let minX := e0 extent in
  let minY := e1 extent in
  let maxX := e2 extent in
  let maxY := e3 extent in
  let crossesDateLine := (maxX <? minX)%js in
  if crossesDateLine then
    fun lon lat =>
      (lat >=? minY)%js && (lat <=? maxY)%js
      && ((lon >=? minX)%js || (lon <=? maxX)%js)%bool
  else
    fun lon lat =>
      (lon >=? minX)%js && (lon <=? maxX)%js
      && (lat >=? minY)%js && (lat <=? maxY)%js.

(** The optional [out] argument is the caller's scratch record: when given,
    its six fields are overwritten and the record itself is returned. *)
Definition createCoordinateCalculator (width height : num) (extent : Extent)
  : num -> num -> option InterpolationParams -> InterpolationParams :=
  let dx :=
    if (e2 extent <? e0 extent)%js
    then (180%Z - e0 extent + (180%Z + e2 extent))%js
    else abs (e2 extent - e0 extent)%js in
  let dy := abs (e3 extent - e1 extent)%js in
  let partX := (dx / width || 1%Z)%js in
  let partY := (dy / height || 1%Z)%js in
  let maxX := (width - 1%Z)%js in
  let maxY := (height - 1%Z)%js in
  fun lon lat out =>
    let x :=
      if (e2 extent <? e0 extent)%js && (lon <=? e2 extent)%js
      then (lon + 360%Z)%js else lon in
    let xCell := ((x - e0 extent) / partX)%js in
    let yCell := ((lat - e1 extent) / partY)%js in
    let xBase := floor xCell in
    let yBaseFloor := floor yCell in
    let yBaseCeil := ceil yCell in
    let x0 := clamp xBase 0%Z maxX in
    let x1 := clamp (xBase + 1%Z)%js 0%Z maxX in
    let y0 := clamp (height - 1%Z - yBaseCeil)%js 0%Z maxY in
    let y1 := clamp (height - 1%Z - yBaseFloor)%js 0%Z maxY in
    let i11' := (x0 + y1 * width)%js in
    let i12' := (x0 + y0 * width)%js in
    let i21' := (x1 + y1 * width)%js in
    let i22' := (x1 + y0 * width)%js in
    let rx' := (xCell - xBase)%js in
    let ry' := (yCell - yBaseFloor)%js in
    match out with
    | Some _ => mkParams i11' i12' i21' i22' rx' ry'
    | None => mkParams i11' i12' i21' i22' rx' ry'
    end.

(* ------------------------------------------------------------------ *)
(** ** src/sources/BaseGridSource.ts *)

(** The stride fields the constructor derives. *)
Record GridSteps : Type := mkSteps {
  gridStepX : num;
  gridStepY : num;
  halfStepX : num;
  halfStepY : num
}.

(** [divisorIdx] of the constructor; [spacingFactor] is [None] when the
    option is left undefined. *)
Definition divisorIdx (divisors : list num) (spacingFactor : option num)
  : num :=
  max 0%Z
    (min (JS.length divisors - 1%Z)%js (nullish spacingFactor 1%Z - 1%Z)%js).

Definition gridSteps (tileW tileH : num) (divisors : list num)
    (spacingFactor : option num) : GridSteps :=
  let divisor := get divisors (divisorIdx divisors spacingFactor) in
  let gx := round (tileW / divisor)%js in
  let gy := round (tileH / divisor)%js in
  mkSteps gx gy (gx / 2%Z)%js (gy / 2%Z)%js.

(** The divisor table of the base class (its default argument) and the
    tables and default spacing factors the three sources pass to it. *)
Definition base_divisors : list num :=
  [16%Z : num; 8%Z : num; 4%Z : num; 2%Z : num; 1%Z : num].
Definition ColorGrid_divisors : list num :=
  [256%Z : num; 128%Z : num; 64%Z : num; 32%Z : num; 16%Z : num].
Definition ArrowGrid_divisors : list num :=
  [16%Z : num; 8%Z : num; 4%Z : num; 2%Z : num; 1%Z : num].
Definition LabelGrid_divisors : list num :=
  [16%Z : num; 8%Z : num; 4%Z : num; 2%Z : num; 1%Z : num].

Definition ColorGrid_spacingFactor (opt : option num) : option num :=
  Some (nullish opt 2%Z).
Definition ArrowGrid_spacingFactor (opt : option num) : option num :=
  Some (nullish opt 3%Z).
Definition LabelGrid_spacingFactor (opt : option num) : option num :=
  Some (nullish opt 4%Z).

(** [for (let i = 0; i < tile; i += step)]: the values [i] takes.  The loop
    does not end when [step] is 0, so the model carries fuel; [None] means
    the fuel ran out before the loop condition failed. *)
Fixpoint loopFrom (fuel : nat) (i tile step : num) : option (list num) :=
  match fuel with
  | O => None
  | S fuel' =>
      if (i <? tile)%js
      then option_map (cons i) (loopFrom fuel' (i + step)%js tile step)
      else Some []
  end.

Definition loopIndices (fuel : nat) (tile step : num) : option (list num) :=
  loopFrom fuel 0%Z tile step.

(** The sample points of one tile: the outer loop runs over [i], the inner
    one over [j]. *)
Definition samplePoints (fuel : nat) (tileW tileH : num) (s : GridSteps)
  : option (list (num * num)) :=
  match loopIndices fuel tileW (gridStepX s),
        loopIndices fuel tileH (gridStepY s) with
  | Some cols, Some rows =>
      Some (flat_map (fun i => map (fun j => (i, j)) rows) cols)
  | _, _ => None
  end.

(* ------------------------------------------------------------------ *)
(** ** The three sources: src/sources/{ColorGrid,ArrowGrid,LabelGrid}.ts *)

(** What a call can do besides returning: reading [range[0]] of an
    undefined range throws. *)
Inductive js_result (A : Type) : Type :=
| Ok (a : A)
| TypeError.
Arguments Ok {A} a.
Arguments TypeError {A}.

Definition bind {A B : Type} (r : js_result A) (k : A -> js_result B)
  : js_result B :=
  match r with Ok a => k a | TypeError => TypeError end.

(** [dequantize(byte, range)] where [range] may be undefined. *)
Definition dequantize_at (byte : num) (range : option Range) : js_result num :=
  match range with
  | Some r => Ok (dequantize byte r)
  | None => TypeError
  end.

(** [ArrowData] *)
Record ArrowData : Type := mkArrow {
  u : num;
  v : num;
  speed : num;
  angle : num
}.

(** [extremes] of a LabelGrid: one pair, or one pair per channel. *)
Inductive LabelExtremes : Type :=
| Shared (r : Range)
| PerChannel (rs : list Range).

(** The fields of a source that the sampling code reads.  [checkExtent] and
    [coordinateCalculator] are the closures the base constructor builds from
    [dataExtent], [dataWidth] and [dataHeight]; [interpolationParam] is the
    scratch record the instance owns. *)
Record BaseGridSource (TData TExtremes : Type) : Type := mkSource {
  data : TData;
  extremes : TExtremes;
  dataWidth : num;
  dataHeight : num;
  dataExtent : Extent;
  tileW : num;
  tileH : num;
  steps : GridSteps;
  interpolationParam : InterpolationParams
}.
Arguments data {TData TExtremes} _.
Arguments extremes {TData TExtremes} _.
Arguments dataWidth {TData TExtremes} _.
Arguments dataHeight {TData TExtremes} _.
Arguments dataExtent {TData TExtremes} _.
Arguments tileW {TData TExtremes} _.
Arguments tileH {TData TExtremes} _.
Arguments steps {TData TExtremes} _.
Arguments interpolationParam {TData TExtremes} _.

Definition checkExtent {D E : Type} (this : BaseGridSource D E)
  : num -> num -> bool :=
  createCheckExtentFunc (dataExtent this).

Definition coordinateCalculator {D E : Type} (this : BaseGridSource D E)
  : num -> num -> option InterpolationParams -> InterpolationParams :=
  createCoordinateCalculator (dataWidth this) (dataHeight this)
    (dataExtent this).

(** [bbox] of [loadTile], from the tile grid's origin and resolution. *)
Definition tileBBox (origin : num * num) (resolution tW tH x y : num)
  : Extent :=
  mkExtent
    (fst origin + tW * resolution * x)%js
    (snd origin + tH * resolution * (- y - 1%Z))%js
    (fst origin + tW * resolution * (x + 1%Z))%js
    (snd origin + tH * resolution * - y)%js.

(** Running a loop body over the sample points in loop order.  The result
    lists what the body emitted, with the pixel offset of each sample; a
    throw in a body aborts the tile. *)
Fixpoint forEachSample {A : Type} (body : num -> num -> js_result (option A))
    (points : list (num * num)) : js_result (list (num * num * A)) :=
  match points with
  | [] => Ok []
  | (i, j) :: rest =>
      bind (body i j) (fun r =>
      bind (forEachSample body rest) (fun more =>
      Ok (match r with
          | Some a => (i, j, a) :: more
          | None => more
          end)))
  end.

Section Sources.

(** Collaborators outside the repository: the projection transform built by
    [createTransformFunc] from ol/proj, the tile grid of the host, and the
    two [Math] functions that are not rational. *)
Variable transform : num -> num -> num * num.
Variable getOrigin : num -> num * num.
Variable getResolution : num -> num.
Variable hypot : num -> num -> num.
Variable atan2 : num -> num -> num.

(** The data-space point of the sample at pixel offset [(i, j)]. *)
Definition samplePoint {D E : Type} (this : BaseGridSource D E)
    (bbox : Extent) (i j : num) : num * num :=
  let stepWidth := ((e2 bbox - e0 bbox) / tileW this)%js in
  let stepHeight := ((e3 bbox - e1 bbox) / tileH this)%js in
  transform
    (e0 bbox + stepWidth * (i + halfStepX (steps this)))%js
    (e3 bbox - stepHeight * (j + halfStepY (steps this)))%js.

(** *** ColorGrid *)

Definition ColorGrid : Type := BaseGridSource Grid (option Range).

(** Body of the sampling loop of [ColorGrid.loadTile] for one [(i, j)]:
    [None] is [continue], [Some value] is the grey value the pixel block of
    the sample is filled with. *)
Definition ColorGrid_sample (this : ColorGrid) (bbox : Extent) (i j : num)
  : option num :=
  let point := samplePoint this bbox i j in
  if negb (checkExtent this (fst point) (snd point)) then None
  else
    let params :=
      coordinateCalculator this (fst point) (snd point)
        (Some (interpolationParam this)) in
    let raw := interpolateGridValue (data this) params in
    if isNaN raw then None
    else Some (round raw).

(** [ColorGrid.loadTile]: the samples that are drawn, each standing for the
    [gridStepX] by [gridStepY] block of opaque grey pixels the source fills
    at its offset.  [None]: the sampling loops did not end within [fuel]. *)
Definition ColorGrid_loadTile (fuel : nat) (this : ColorGrid) (z x y : num)
  : option (js_result (list (num * num * num))) :=
  let bbox :=
    tileBBox (getOrigin z) (getResolution z) (tileW this) (tileH this) x y in
  match samplePoints fuel (tileW this) (tileH this) (steps this) with
  | Some points =>
      Some (forEachSample (fun i j => Ok (ColorGrid_sample this bbox i j))
              points)
  | None => None
  end.

(** [ColorGrid.getDataAtCoordinate]; [None] is [null]. *)
Definition ColorGrid_getDataAtCoordinate (this : ColorGrid)
    (coordinate : num * num) : option num :=
  let p := transform (fst coordinate) (snd coordinate) in
  let lon := fst p in
  let lat := snd p in
  let params :=
    coordinateCalculator this lon lat (Some (interpolationParam this)) in
  let raw := interpolateGridValue (data this) params in
  if isNaN raw then None
  else
    match extremes this with
    | Some range => Some (dequantize raw range)
    | None => Some raw
    end.

(** *** ArrowGrid *)

Definition ArrowGrid : Type := BaseGridSource (Grid * Grid) (option Range).

(** [opts.speedThreshold || 0] *)
Definition speedThreshold_of (opt : option num) : num :=
  match opt with
  | Some t => (t || 0%Z)%js
  | None => 0%Z
  end.

(** Body of the sampling loop of [ArrowGrid.loadTile]: [Ok None] is
    [continue], [Ok (Some a)] is an arrow stroked with the data [a]. *)
Definition ArrowGrid_sample (this : ArrowGrid) (speedThreshold : num)
    (bbox : Extent) (i j : num) : js_result (option ArrowData) :=
  let uGrid := fst (data this) in
  let vGrid := snd (data this) in
  let point := samplePoint this bbox i j in
  if negb (checkExtent this (fst point) (snd point)) then Ok None
  else
    let params :=
      coordinateCalculator this (fst point) (snd point)
        (Some (interpolationParam this)) in
    let uRaw := interpolateGridValue uGrid params in
    let vRaw := interpolateGridValue vGrid params in
    if isNaN uRaw || isNaN vRaw then Ok None
    else
      bind (dequantize_at uRaw (extremes this)) (fun u' =>
      bind (dequantize_at vRaw (extremes this)) (fun v' =>
      let speed' := hypot u' v' in
      if (speed' <? speedThreshold)%js then Ok None
      else
        let angle' := atan2 (- v')%js u' in
        Ok (Some (mkArrow u' v' speed' angle')))).

(** [ArrowGrid.loadTile]: the arrows that are stroked, each at the centre
    of its sample.  [None]: the sampling loops did not end within [fuel]. *)
Definition ArrowGrid_loadTile (fuel : nat) (this : ArrowGrid)
    (speedThreshold : num) (z x y : num)
  : option (js_result (list (num * num * ArrowData))) :=
  let bbox :=
    tileBBox (getOrigin z) (getResolution z) (tileW this) (tileH this) x y in
  match samplePoints fuel (tileW this) (tileH this) (steps this) with
  | Some points =>
      Some (forEachSample (ArrowGrid_sample this speedThreshold bbox) points)
  | None => None
  end.

(** [ArrowGrid.getVectorAtCoordinate]; [Ok None] is [null]. *)
Definition ArrowGrid_getVectorAtCoordinate (this : ArrowGrid)
    (coordinate : num * num) : js_result (option ArrowData) :=
  let uGrid := fst (data this) in
  let vGrid := snd (data this) in
  let p := transform (fst coordinate) (snd coordinate) in
  let lon := fst p in
  let lat := snd p in
  let params :=
    coordinateCalculator this lon lat (Some (interpolationParam this)) in
  let uRaw := interpolateGridValue uGrid params in
  let vRaw := interpolateGridValue vGrid params in
  if isNaN uRaw || isNaN vRaw then Ok None
  else
    bind (dequantize_at uRaw (extremes this)) (fun u' =>
    bind (dequantize_at vRaw (extremes this)) (fun v' =>
    let speed' := hypot u' v' in
    let angle' := atan2 (- v')%js u' in
    Ok (Some (mkArrow u' v' speed' angle')))).

(** *** LabelGrid *)

Definition LabelGrid : Type := BaseGridSource (list Grid) LabelExtremes.

(** [isMultiExtremes ? ranges[index] : ranges[0]] *)
Definition rangeOf (ex : LabelExtremes) (index : nat) : option Range :=
  match ex with
  | Shared r => Some r
  | PerChannel [] =>
      (* [Array.isArray(extremes[0])] is false: the empty array itself is
         taken as the range, and both of its reads are undefined *)
      Some (NaN, NaN)
  | PerChannel rs => nth_error rs index
  end.

(** The channel loop of [LabelGrid.loadTile], from channel [k] on: [Ok None]
    when a channel has no data ([hasNoData]), else the values. *)
Fixpoint LabelGrid_values (ex : LabelExtremes) (params : InterpolationParams)
    (k : nat) (grids : list Grid) : js_result (option (list num)) :=
  match grids with
  | [] => Ok (Some [])
  | grid :: rest =>
      let raw := interpolateGridValue grid params in
      if isNaN raw then Ok None
      else
        bind (dequantize_at raw (rangeOf ex k)) (fun value =>
        bind (LabelGrid_values ex params (S k) rest) (fun more =>
        Ok (option_map (cons value) more)))
  end.

(** Body of the sampling loop of [LabelGrid.loadTile] up to the text
    formatter: [Ok None] is [continue], [Ok (Some values)] are the values
    handed to the formatter. *)
Definition LabelGrid_sample (this : LabelGrid) (bbox : Extent) (i j : num)
  : js_result (option (list num)) :=
  let point := samplePoint this bbox i j in
  if negb (checkExtent this (fst point) (snd point)) then Ok None
  else
    let params :=
      coordinateCalculator this (fst point) (snd point)
        (Some (interpolationParam this)) in
    LabelGrid_values (extremes this) params 0 (data this).

(** [LabelGrid.loadTile] up to the text formatter: the value lists handed
    to it, one per sample that has data in every channel. *)
Definition LabelGrid_loadTile (fuel : nat) (this : LabelGrid) (z x y : num)
  : option (js_result (list (num * num * list num))) :=
  let bbox :=
    tileBBox (getOrigin z) (getResolution z) (tileW this) (tileH this) x y in
  match samplePoints fuel (tileW this) (tileH this) (steps this) with
  | Some points => Some (forEachSample (LabelGrid_sample this bbox) points)
  | None => None
  end.

(** The callback of [data.map] in [LabelGrid.getDataAtCoordinate], over the
    channels from [index] on. *)
Fixpoint LabelGrid_mapChannels (ex : LabelExtremes)
    (params : InterpolationParams) (index : nat) (grids : list Grid)
  : js_result (list num) :=
  match grids with
  | [] => Ok []
  | grid :: rest =>
      let raw := interpolateGridValue grid params in
      bind (if isNaN raw then Ok NaN else dequantize_at raw (rangeOf ex index))
        (fun value =>
      bind (LabelGrid_mapChannels ex params (S index) rest) (fun more =>
      Ok (value :: more)))
  end.

Definition LabelGrid_getDataAtCoordinate (this : LabelGrid)
    (coordinate : num * num) : js_result (list num) :=
  let p := transform (fst coordinate) (snd coordinate) in
  let lon := fst p in
  let lat := snd p in
  let params :=
    coordinateCalculator this lon lat (Some (interpolationParam this)) in
  LabelGrid_mapChannels (extremes this) params 0 (data this).

End Sources.

(* ------------------------------------------------------------------ *)
(** ** The interpolation-parameter algorithm as the specification words it

    Written over the rationals and the integers, for a grid of [w] columns
    and [h] rows and a finite extent; compared below with
    [createCoordinateCalculator]. *)

Module Spec.
Section Algorithm.

Variables (w h : Z) (minLon minLat maxLon maxLat : Q).

(** The extent wraps when maxLon < minLon. *)
Definition wraps : bool := negb (Qle_bool minLon maxLon).

(** Step 1: 360 is added to a longitude in the low segment of a wrapping
    extent. *)
Definition lonAdj (lon : Q) : Q :=
  if wraps && Qle_bool lon maxLon then lon + 360 else lon.

(** The span of the extent along each axis; a wrapping extent runs from
    minLon up to 180 and from -180 up to maxLon. *)
Definition spanLon : Q :=
  if wraps then (180 - minLon) + (180 + maxLon) else Qabs (maxLon - minLon).

Definition spanLat : Q := Qabs (maxLat - minLat).

(** Step 2: the cell size is the span divided by the number of cells, and 1
    when the axis is degenerate. *)
Definition cellSize (span : Q) (cells : Z) : Q :=
  if Qeq_bool span 0 then 1 else span / inject_Z cells.

Definition cellWidth : Q := cellSize spanLon w.
Definition cellHeight : Q := cellSize spanLat h.

Definition xCell (lon : Q) : Q := (lonAdj lon - minLon) / cellWidth.
Definition yCell (lat : Q) : Q := (lat - minLat) / cellHeight.

Definition clampTo (lo hi value : Z) : Z := Z.max lo (Z.min hi value).

(** Step 3: neighbor columns. *)
Definition x0 (lon : Q) : Z := clampTo 0 (w - 1) (Qfloor (xCell lon)).
Definition x1 (lon : Q) : Z := clampTo 0 (w - 1) (Qfloor (xCell lon) + 1).

(** Step 4: neighbor rows, in buffer order. *)
Definition rowOfFloor (lat : Q) : Z :=
  clampTo 0 (h - 1) (h - 1 - Qfloor (yCell lat)).
Definition rowOfCeil (lat : Q) : Z :=
  clampTo 0 (h - 1) (h - 1 - Qceiling (yCell lat)).

(** Row-major address of a cell. *)
Definition flat (col row : Z) : Z := (col + row * w)%Z.

(** Step 6: fractional offsets. *)
Definition rx (lon : Q) : Q := xCell lon - inject_Z (Qfloor (xCell lon)).
Definition ry (lat : Q) : Q := yCell lat - inject_Z (Qfloor (yCell lat)).

End Algorithm.
End Spec.

(** The parameter record that belongs to the fractional cell coordinates
    [xc] and [yc] of a [w] by [h] grid. *)
Definition paramsOfCells (w h : Z) (xc yc : Q) : InterpolationParams :=
  let c0 := Spec.clampTo 0 (w - 1) (Qfloor xc) in
  let c1 := Spec.clampTo 0 (w - 1) (Qfloor xc + 1) in
  let rF := Spec.clampTo 0 (h - 1) (h - 1 - Qfloor yc) in
  let rC := Spec.clampTo 0 (h - 1) (h - 1 - Qceiling yc) in
  mkParams
    (of_Z (Spec.flat w c0 rF)) (of_Z (Spec.flat w c0 rC))
    (of_Z (Spec.flat w c1 rF)) (of_Z (Spec.flat w c1 rC))
    (Fin (xc - inject_Z (Qfloor xc))) (Fin (yc - inject_Z (Qfloor yc))).

(** The data-model invariant of a parameter record over a buffer of
    [size] cells. *)
Definition validIndex (size : Z) (i : num) : Prop :=
  exists z : Z, i = of_Z z /\ (0 <= z <= size - 1)%Z.

Definition unitOffset (r : num) : Prop :=
  exists q : Q, r = Fin q /\ 0 <= q /\ q <= 1.

Definition validParams (size : Z) (p : InterpolationParams) : Prop :=
  validIndex size (i11 p) /\ validIndex size (i12 p)
  /\ validIndex size (i21 p) /\ validIndex size (i22 p)
  /\ unitOffset (rx p) /\ unitOffset (ry p).

(** One of the four neighbor reads of [params] in [grid] is the missing-data
    value (a NaN cell, or no cell at all). *)
Definition hasMissingNeighbor (grid : Grid) (params : InterpolationParams)
  : bool :=
  isNaN (get grid (i11 params)) || isNaN (get grid (i12 params))
  || isNaN (get grid (i21 params)) || isNaN (get grid (i22 params)).

(** Every one of the first [n] channels has a value range. *)
Definition rangesCover (ex : LabelExtremes) (n : nat) : Prop :=
  forall k : nat, (k < n)%nat -> rangeOf ex k <> None.

(** The parameters a source computes for a data-space point, into its
    scratch record. *)
Definition paramsAt {D E : Type} (this : BaseGridSource D E)
    (point : num * num) : InterpolationParams :=
  coordinateCalculator this (fst point) (snd point)
    (Some (interpolationParam this)).

(** A one-channel raster source over a [w] by [h] grid, for examples; the
    tile fields are those of a 256-pixel tile at spacing factor 1. *)
Definition exampleColorGrid (grid : Grid) (w h : Z) (extent : Extent)
    (range : option Range) : ColorGrid :=
  mkSource Grid (option Range) grid range w h extent 256%Z 256%Z
    (gridSteps 256%Z 256%Z ColorGrid_divisors
       (ColorGrid_spacingFactor (Some (1%Z : num))))
    (mkParams 0%Z 0%Z 0%Z 0%Z 0%Z 0%Z).

(** The vector the specification attaches to a point with interpolation
    parameters [params]: both channels dequantized with the range [r],
    speed = hypot(u, v) and angle = atan2(-v, u). *)
Definition arrowAt (hypot atan2 : num -> num -> num) (this : ArrowGrid)
    (params : InterpolationParams) (r : Range) : ArrowData :=
  let u' := dequantize (interpolateGridValue (fst (data this)) params) r in
  let v' := dequantize (interpolateGridValue (snd (data this)) params) r in
  mkArrow u' v' (hypot u' v') (atan2 (- v')%js u').

(** A rational stand-in for [Math.hypot], used to run examples: the square
    root of u*u + v*v rounded down to a multiple of the denominator of that
    sum.  It is exact whenever the root is rational with that denominator,
    in particular at (0, 0). *)
Definition hypotDown (a b : num) : num :=
  match a, b with
  | PInf, _ | NInf, _ | _, PInf | _, NInf => PInf
  | NaN, _ | _, NaN => NaN
  | Fin p, Fin q =>
      let s := p * p + q * q in
      Fin (Z.sqrt (Qnum s * Zpos (Qden s)) # Qden s)
  end.

(** A vector source over a [w] by [h] grid, for examples; the tile fields
    are those of a 256-pixel tile at the default spacing factor 3. *)
Definition exampleArrowGrid (uGrid vGrid : Grid) (w h : Z) (extent : Extent)
    (range : option Range) : ArrowGrid :=
  mkSource (Grid * Grid) (option Range) (uGrid, vGrid) range w h extent
    256%Z 256%Z
    (gridSteps 256%Z 256%Z ArrowGrid_divisors (ArrowGrid_spacingFactor None))
    (mkParams 0%Z 0%Z 0%Z 0%Z 0%Z 0%Z).

(** A source over a grid of [w] columns and [h] rows (both at least 1) with
    a finite extent. *)
Definition wellFormed {D E : Type} (this : BaseGridSource D E) (w h : Z)
    (minLon minLat maxLon maxLat : Q) : Prop :=
  dataWidth this = of_Z w /\ dataHeight this = of_Z h
  /\ dataExtent this
     = mkExtent (Fin minLon) (Fin minLat) (Fin maxLon) (Fin maxLat)
  /\ (1 <= w)%Z /\ (1 <= h)%Z.

(** A buffer whose first [size] cells all hold a value. *)
Definition finiteGrid (size : Z) (grid : Grid) : Prop :=
  forall n : nat, (Z.of_nat n < size)%Z -> exists q : Q, nth n grid NaN = Fin q.

(** All four neighbors of [params] lie in column [col], in row [row]. *)
Definition inColumn (w h col : Z) (params : InterpolationParams) : Prop :=
  exists rowF rowC : Z,
    (0 <= rowF <= h - 1)%Z /\ (0 <= rowC <= h - 1)%Z
    /\ i11 params = of_Z (Spec.flat w col rowF)
    /\ i21 params = of_Z (Spec.flat w col rowF)
    /\ i12 params = of_Z (Spec.flat w col rowC)
    /\ i22 params = of_Z (Spec.flat w col rowC).

Definition inRow (w row : Z) (params : InterpolationParams) : Prop :=
  exists col0 col1 : Z,
    (0 <= col0 <= w - 1)%Z /\ (0 <= col1 <= w - 1)%Z
    /\ i11 params = of_Z (Spec.flat w col0 row)
    /\ i12 params = of_Z (Spec.flat w col0 row)
    /\ i21 params = of_Z (Spec.flat w col1 row)
    /\ i22 params = of_Z (Spec.flat w col1 row).

(** A divisor table given by its integer entries. *)
Definition tableOf (ds : list Z) : list num := map of_Z ds.

(** The number of sample points of one tile, when the loops end. *)
Definition sampleCount (fuel : nat) (tW tH : num) (divisors : list num)
    (spacingFactor : option num) : option nat :=
  option_map (@List.length (num * num))
    (samplePoints fuel tW tH (gridSteps tW tH divisors spacingFactor)).

(** Integer counterparts: the table index a spacing factor selects, the
    stride [Math.round(tile / divisor)], and the number of strides of length
    [step] that start inside a tile of [tile] pixels. *)
Definition indexZ (n sf : Z) : Z := Z.max 0 (Z.min (n - 1) (sf - 1)).

Definition stepZ (tile divisor : Z) : Z :=
  Qfloor (inject_Z tile / inject_Z divisor + (1 # 2)).

Definition countZ (tile step : Z) : Z := ((tile - 1) / step + 1)%Z.

(** A table of positive divisors whose first entry is the largest. *)
Definition firstLargest (ds : list Z) : Prop :=
  forall d : Z, In d ds -> (1 <= d <= nth 0 ds 0)%Z.

(** A sample of a vector tile that lies inside the extent and has both
    channels defined. *)
Definition hasVector (transform : num -> num -> num * num) (this : ArrowGrid)
    (bbox : Extent) (ij : num * num) : bool :=
  let point := samplePoint transform this bbox (fst ij) (snd ij) in
  let params := paramsAt this point in
  checkExtent this (fst point) (snd point)
  && negb (isNaN (interpolateGridValue (fst (data this)) params)
           || isNaN (interpolateGridValue (snd (data this)) params)).

(** The vector at a sample, as the specification defines it. *)
Definition vectorOf (transform : num -> num -> num * num)
    (hypot atan2 : num -> num -> num) (this : ArrowGrid) (bbox : Extent)
    (r : Range) (ij : num * num) : num * num * ArrowData :=
  (fst ij, snd ij,
   arrowAt hypot atan2 this
     (paramsAt this (samplePoint transform this bbox (fst ij) (snd ij))) r).

(** A buffer whose first [size] cells hold values between [lo] and [hi];
    a [Uint8Array] is one with bounds 0 and 255. *)
Definition boundedGrid (size : Z) (lo hi : Q) (grid : Grid) : Prop :=
  forall n : nat,
    (Z.of_nat n < size)%Z ->
    exists q : Q, nth n grid NaN = Fin q /\ lo <= q /\ q <= hi.

(* ------------------------------------------------------------------ *)
(** ** Byte arrays: allocation and stores *)

(** Rounding towards zero, as [ToIntegerOrInfinity] does. *)
Definition Qtrunc (q : Q) : Z :=
  if Qle_bool 0 q then Qfloor q else Qceiling q.

(** [ToUint8], the conversion a store into a [Uint8Array] applies: NaN and
    the infinities become 0, a finite number is truncated and taken modulo
    256. *)
Definition toUint8 (value : num) : num :=
  match value with
  | Fin q => of_Z (Qtrunc q mod 256)
  | _ => of_Z 0
  end.

Fixpoint setNth {A : Type} (n : nat) (x : A) (l : list A) : list A :=
  match l, n with
  | [], _ => []
  | _ :: rest, O => x :: rest
  | a :: rest, S n' => a :: setNth n' x rest
  end.

(** [arr[idx] = value] on a [Uint8Array]: a key that is not an index of the
    array leaves it unchanged. *)
Definition store (arr : list num) (idx value : num) : list num :=
  match index_of idx with
  | Some n => setNth n (toUint8 value) arr
  | None => arr
  end.

(** [new Uint8Array(len)]: [ToIndex] truncates the length (NaN counts as 0)
    and throws a RangeError when the result is negative or above 2^53 - 1;
    the cells start at 0. *)
Inductive alloc_result (A : Type) : Type :=
| Allocated (a : A)
| RangeError.
Arguments Allocated {A} a.
Arguments RangeError {A}.

Definition newUint8Array (len : num) : alloc_result (list num) :=
  match len with
  | NaN => Allocated []
  | PInf | NInf => RangeError
  | Fin q =>
      let n := Qtrunc q in
      if (n <? 0)%Z || (2 ^ 53 - 1 <? n)%Z then RangeError
      else Allocated (repeat (of_Z 0) (Z.to_nat n))
  end.

(* ------------------------------------------------------------------ *)
(** ** src/lib/utils.ts: [decodeImage]

    The pixel loop of the [onload] handler, from the bytes that
    [getImageData] returned; loading the image and drawing it to the canvas
    are the browser's. *)

(** The four channel arrays [r], [g], [b], [a]. *)
Record Channels : Type := mkChannels {
  chR : list num;
  chG : list num;
  chB : list num;
  chA : list num
}.

(** [for (let i = 0; i < imageData.length; i += 4)], from [i] on. *)
Fixpoint decodeFrom (fuel : nat) (imageData : list num) (i : num)
    (ch : Channels) : option Channels :=
  match fuel with
  | O => None
  | S fuel' =>
      if (i <? JS.length imageData)%js then
        let idx := (i / 4%Z)%js in
        decodeFrom fuel' imageData (i + 4%Z)%js
          (mkChannels
             (store (chR ch) idx (get imageData i))
             (store (chG ch) idx (get imageData (i + 1%Z)%js))
             (store (chB ch) idx (get imageData (i + 2%Z)%js))
             (store (chA ch) idx (get imageData (i + 3%Z)%js)))
      else Some ch
  end.

(** The channels [decodeImage] resolves with.  [None]: out of fuel. *)
Definition decodeChannels (fuel : nat) (imageData : list num)
  : option (alloc_result Channels) :=
  let size := (JS.length imageData / 4%Z)%js in
  match newUint8Array size, newUint8Array size,
        newUint8Array size, newUint8Array size with
  | Allocated r, Allocated g, Allocated b, Allocated a =>
      option_map Allocated (decodeFrom fuel imageData 0%Z (mkChannels r g b a))
  | _, _, _, _ => Some RangeError
  end.

(** A list of byte values. *)
Definition isByte (value : num) : Prop :=
  exists b : Z, value = of_Z b /\ (0 <= b <= 255)%Z.

(** The packed pixels that four channels interleave to. *)
Fixpoint interleave (r g b a : list num) : list num :=
  match r, g, b, a with
  | x :: r', y :: g', z :: b', t :: a' =>
      x :: y :: z :: t :: interleave r' g' b' a'
  | _, _, _, _ => []
  end.

(** The state of the pixel loop after [m] of the [n] pixels of [imageData]:
    the channels have their final length and their first [m] cells hold the
    bytes of the first [m] pixels. *)
Definition decodedUpTo (imageData : list num) (n m : nat) (ch : Channels)
  : Prop :=
  List.length (chR ch) = n /\ List.length (chG ch) = n
  /\ List.length (chB ch) = n /\ List.length (chA ch) = n
  /\ forall k : nat,
       (k < m)%nat ->
       nth k (chR ch) NaN = nth (4 * k) imageData NaN
       /\ nth k (chG ch) NaN = nth (4 * k + 1) imageData NaN
       /\ nth k (chB ch) NaN = nth (4 * k + 2) imageData NaN
       /\ nth k (chA ch) NaN = nth (4 * k + 3) imageData NaN.

(* ------------------------------------------------------------------ *)
(** ** src/lib/utils.ts: [createHeatmapStyle] *)

Module Heatmap.

Import Stdlib.Strings.String.

(** The style expressions this code builds: strings, numbers and arrays of
    expressions. *)
#[warnings="-register-all"] Inductive Expr : Type :=
| Str (s : string)
| Num (n : num)
| Arr (items : list Expr).

(** [ColorRampOptions]; [channel] and [defaultColor] are optional. *)
Record ColorRampOptions : Type := mkOptions {
  stops : list (num * string);
  range : num * num;
  channel : option num;
  defaultColor : option string
}.

(** [a === b] on numbers. *)
Definition strictEq (a b : num) : bool :=
  match a, b with
  | Fin p, Fin q => Qeq_bool p q
  | PInf, PInf | NInf, NInf => true
  | _, _ => false
  end.

(** The body of the loop over the stops: the position of one stop. *)
Definition stopPosition (rangeMin span value : num) : num :=
  let position :=
    if strictEq span 0%Z then of_Z 0 else ((value - rangeMin) / span)%js in
  max 0%Z (min 1%Z position).

Definition normalizedStops (rangeMin span : num)
    (stops : list (num * string)) : list Expr :=
  flat_map
    (fun stop => [Num (stopPosition rangeMin span (fst stop)); Str (snd stop)])
    stops.

(** The [color] property of the object [createHeatmapStyle] returns. *)
Definition createHeatmapStyle (options : ColorRampOptions) : Expr :=
  let channel' := nullish (channel options) 0%Z in
  let defaultColor' :=
    match defaultColor options with
    | Some c => c
    | None => "transparent"%string
    end in
  let rangeMin := fst (range options) in
  let rangeMax := snd (range options) in
  let span := (rangeMax - rangeMin)%js in
  let bandIndex := (channel' + 1%Z)%js in
  Arr ([Str "interpolate"; Arr [Str "linear"]; Arr [Str "band"; Num bandIndex];
        Num 0%Z; Str defaultColor']
       ++ normalizedStops rangeMin span (stops options)).

End Heatmap.

(* ------------------------------------------------------------------ *)
(** ** [ColorGrid.loadTile]: the pixel buffer *)

(** The four stores of the innermost loop body, for offset [(k, l)] inside
    the block of the sample at [(i, j)]. *)
Definition writePixel (tW i j value : num) (buffer : list num)
    (kl : num * num) : list num :=
  let idx := (((j + fst kl) * tW + (i + snd kl)) * 4%Z)%js in
  store
    (store
       (store (store buffer idx value) (idx + 1%Z)%js value)
       (idx + 2%Z)%js value)
    (idx + 3%Z)%js 255%Z.

(** The two loops over [k < gridStepY] and [l < gridStepX] that fill the
    block of one sample.  [None]: a loop did not end within [fuel]. *)
Definition fillBlock (fuel : nat) (tW sx sy i j value : num)
    (buffer : list num) : option (list num) :=
  match loopIndices fuel sy 1%Z with
  | None => None
  | Some [] => Some buffer
  | Some ks =>
      match loopIndices fuel sx 1%Z with
      | None => None
      | Some ls =>
          Some (fold_left (writePixel tW i j value)
                  (flat_map (fun k => map (fun l => (k, l)) ls) ks) buffer)
      end
  end.

Section RasterPixels.

Variable transform : num -> num -> num * num.
Variable getOrigin : num -> num * num.
Variable getResolution : num -> num.

(** The body of the sampling loops over the remaining sample points. *)
Fixpoint renderSamples (fuel : nat) (this : ColorGrid) (bbox : Extent)
    (points : list (num * num)) (buffer : list num) : option (list num) :=
  match points with
  | [] => Some buffer
  | (i, j) :: rest =>
      match ColorGrid_sample transform this bbox i j with
      | None => renderSamples fuel this bbox rest buffer
      | Some value =>
          match fillBlock fuel (tileW this) (gridStepX (steps this))
                  (gridStepY (steps this)) i j value buffer with
          | None => None
          | Some buffer' => renderSamples fuel this bbox rest buffer'
          end
      end
  end.

(** [ColorGrid.loadTile] with its pixel buffer: RGBA bytes, row-major.
    [None]: a loop did not end within [fuel]. *)
Definition ColorGrid_render (fuel : nat) (this : ColorGrid) (z x y : num)
  : option (alloc_result (list num)) :=
  let bbox :=
    tileBBox (getOrigin z) (getResolution z) (tileW this) (tileH this) x y in
  match newUint8Array (tileW this * tileH this * 4%Z)%js with
  | RangeError => Some RangeError
  | Allocated buffer =>
      match samplePoints fuel (tileW this) (tileH this) (steps this) with
      | None => None
      | Some points =>
          option_map Allocated (renderSamples fuel this bbox points buffer)
      end
  end.

End RasterPixels.

(** The byte a drawn sample leaves in channel [c] of a pixel of its block:
    the grey value in the three colour channels, 255 in the alpha channel. *)
Definition pixelByte (value : num) (c : Z) : num :=
  if (c <? 3)%Z then toUint8 value else of_Z 255.

(* ------------------------------------------------------------------ *)
(** * Properties *)

(** ** Number model: equality and finite arithmetic *)

Lemma num_eq_refl (a : num) : a =n= a.
Proof. destruct a; simpl; auto; reflexivity. Qed.

Lemma num_eq_sym (a b : num) : a =n= b -> b =n= a.
Proof. destruct a, b; simpl; auto; intros H; symmetry; exact H. Qed.

Lemma num_eq_trans (a b c : num) : a =n= b -> b =n= c -> a =n= c.
Proof.
  destruct a, b, c; simpl; auto; try contradiction.
  intros H1 H2; rewrite H1; exact H2.
Qed.

Lemma lt_Fin (p q : Q) : (Fin p <? Fin q)%js = true <-> p < q.
Proof.
  simpl. rewrite negb_true_iff. split; intros H.
  - apply Qnot_le_lt. intros Hle. apply Qle_bool_iff in Hle. congruence.
  - destruct (Qle_bool q p) eqn:E; [|reflexivity].
    apply Qle_bool_iff in E. exfalso. apply (Qlt_not_le _ _ H E).
Qed.

Lemma lt_Fin_false (p q : Q) : (Fin p <? Fin q)%js = false <-> q <= p.
Proof.
  simpl. rewrite negb_false_iff. apply Qle_bool_iff.
Qed.

Lemma le_Fin (p q : Q) : (Fin p <=? Fin q)%js = true <-> p <= q.
Proof. simpl. apply Qle_bool_iff. Qed.

Lemma ge_Fin (p q : Q) : (Fin p >=? Fin q)%js = true <-> q <= p.
Proof. unfold ge. apply le_Fin. Qed.

Lemma Qeq_bool_false (p q : Q) : ~ p == q -> Qeq_bool p q = false.
Proof.
  intros H. destruct (Qeq_bool p q) eqn:E; [|reflexivity].
  apply Qeq_bool_iff in E. contradiction.
Qed.

Lemma div_Fin (p q : Q) : ~ q == 0 -> (Fin p / Fin q)%js = Fin (p / q).
Proof. intros H. simpl. rewrite (Qeq_bool_false _ _ H). reflexivity. Qed.

Lemma div_Fin_zero (q : Q) : q == 0 -> (Fin 0 / Fin q)%js = NaN.
Proof.
  intros H. simpl. apply Qeq_bool_iff in H. rewrite H. reflexivity.
Qed.

(** ** Extent containment *)

(** C2.  For finite extents and coordinates the predicate built by
    [createCheckExtentFunc] holds exactly when: for a non-wrapping extent
    (maxLon >= minLon) the four range comparisons hold; for a wrapping extent
    (maxLon < minLon) the latitude is in range and the longitude is at least
    minLon or at most maxLon.  For the extent [170,-10,-170,10] and a latitude
    in range, longitudes 175 and -175 are contained and 0 is not. *)
Theorem checkExtent_decides_containment :
  (forall minLon minLat maxLon maxLat lon lat : Q,
      minLon <= maxLon ->
      createCheckExtentFunc
        (mkExtent (Fin minLon) (Fin minLat) (Fin maxLon) (Fin maxLat))
        (Fin lon) (Fin lat) = true
      <-> (minLon <= lon /\ lon <= maxLon /\ minLat <= lat /\ lat <= maxLat))
  /\ (forall minLon minLat maxLon maxLat lon lat : Q,
      maxLon < minLon ->
      createCheckExtentFunc
        (mkExtent (Fin minLon) (Fin minLat) (Fin maxLon) (Fin maxLat))
        (Fin lon) (Fin lat) = true
      <-> ((minLat <= lat /\ lat <= maxLat)
           /\ (minLon <= lon \/ lon <= maxLon)))
  /\ (forall lat : Q,
      -(10) <= lat -> lat <= 10 ->
      let ext := mkExtent 170%Z (-10)%Z (-170)%Z 10%Z in
      createCheckExtentFunc ext 175%Z (Fin lat) = true
      /\ createCheckExtentFunc ext (-175)%Z (Fin lat) = true
      /\ createCheckExtentFunc ext 0%Z (Fin lat) = false).
Proof.
  split; [|split].
  - intros minLon minLat maxLon maxLat lon lat Hle.
    unfold createCheckExtentFunc; cbn [e0 e1 e2 e3].
    apply lt_Fin_false in Hle. rewrite Hle.
    rewrite !andb_true_iff, !ge_Fin, !le_Fin. tauto.
  - intros minLon minLat maxLon maxLat lon lat Hlt.
    unfold createCheckExtentFunc; cbn [e0 e1 e2 e3].
    apply lt_Fin in Hlt. rewrite Hlt.
    rewrite !andb_true_iff, orb_true_iff, !ge_Fin, !le_Fin. tauto.
  - intros lat Hlo Hhi ext.
    assert (Hlo' : (Fin lat >=? (-10)%Z)%js = true) by (apply ge_Fin; exact Hlo).
    assert (Hhi' : (Fin lat <=? 10%Z)%js = true) by (apply le_Fin; exact Hhi).
    unfold ext, createCheckExtentFunc; cbn [e0 e1 e2 e3].
    replace ((-170)%Z <? 170%Z)%js with true by reflexivity.
    rewrite Hlo', Hhi'. repeat split; reflexivity.
Qed.

Lemma checkExtent_decides_containment_witness :
  (createCheckExtentFunc (mkExtent 0%Z 0%Z 10%Z 10%Z) 5%Z 5%Z = true
   <-> (0 <= 5 /\ 5 <= 10 /\ 0 <= 5 /\ 5 <= 10))
  /\ (createCheckExtentFunc (mkExtent 170%Z (-10)%Z (-170)%Z 10%Z)
        175%Z 0%Z = true
      <-> ((-(10) <= 0 /\ 0 <= 10) /\ (170 <= 175 \/ 175 <= -(170))))
  /\ createCheckExtentFunc (mkExtent 170%Z (-10)%Z (-170)%Z 10%Z)
       175%Z (Fin 3) = true.
Proof.
  destruct checkExtent_decides_containment as [Hn [Hw He]].
  split; [|split].
  - apply (Hn 0 0 10 10 5 5). unfold Qle; simpl; lia.
  - apply (Hw 170 (-(10)) (-(170)) 10 175 0). unfold Qlt; simpl; lia.
  - apply (He 3); unfold Qle; simpl; lia.
Defined.

(** ** Quantisation *)

Lemma quantize_Fin (value lo hi : Q) :
  lo < hi ->
  quantize (Fin value) (Fin lo, Fin hi)
  = Fin ((value + - lo) * inject_Z 255 / (hi + - lo)).
Proof.
  intros H. unfold quantize; cbn [fst snd sub neg add mul of_Z].
  apply div_Fin. lra.
Qed.

Lemma dequantize_Fin (byte lo hi : Q) :
  dequantize (Fin byte) (Fin lo, Fin hi)
  = Fin (byte * (hi + - lo) / inject_Z 255 + lo).
Proof. reflexivity. Qed.

(** C5.  Over a range with max > min, [quantize] is the affine map
    (value - min) * 255 / (max - min), and [quantize] and [dequantize] undo
    each other exactly; with the range [-50, 50], [quantize 0] is 127.5 and
    [dequantize 128] lies between 0.196 and 0.197. *)
Theorem quantize_dequantize_inverse (lo hi x : Q) :
  lo < hi ->
  quantize (Fin x) (Fin lo, Fin hi) =n= Fin ((x - lo) * 255 / (hi - lo))
  /\ dequantize (quantize (Fin x) (Fin lo, Fin hi)) (Fin lo, Fin hi) =n= Fin x
  /\ quantize (dequantize (Fin x) (Fin lo, Fin hi)) (Fin lo, Fin hi) =n= Fin x
  /\ quantize 0%Z ((-50)%Z : num, 50%Z : num) =n= Fin (255 # 2)
  /\ (exists d : Q,
         dequantize 128%Z ((-50)%Z : num, 50%Z : num) = Fin d
         /\ 196 # 1000 < d /\ d < 197 # 1000).
Proof.
  intros H.
  assert (Hspan : ~ hi + - lo == 0) by lra.
  split; [|split; [|split; [|split]]].
  - rewrite quantize_Fin by exact H. simpl.
    change (inject_Z 255) with 255. unfold Qminus. reflexivity.
  - rewrite quantize_Fin by exact H. rewrite dequantize_Fin. simpl.
    change (inject_Z 255) with 255. field. exact Hspan.
  - rewrite dequantize_Fin. rewrite quantize_Fin by exact H. simpl.
    change (inject_Z 255) with 255. field. exact Hspan.
  - vm_compute. reflexivity.
  - eexists. split; [vm_compute; reflexivity|].
    split; reflexivity.
Qed.

Lemma quantize_dequantize_inverse_witness :
  dequantize (quantize (Fin 20) ((-50)%Z : num, 50%Z : num))
    ((-50)%Z : num, 50%Z : num) =n= Fin 20.
Proof.
  apply (quantize_dequantize_inverse (-(50)) 50 20).
  reflexivity.
Defined.

(** C6.  Over a degenerate range [m, m] every finite byte dequantizes to a
    finite value equal to [m]: the span is multiplied, not divided by, so
    no infinity and no NaN arises. *)
Theorem dequantize_degenerate_range (byte m : Q) :
  dequantize (Fin byte) (Fin m, Fin m) =n= Fin m
  /\ is_finite (dequantize (Fin byte) (Fin m, Fin m)) = true
  /\ isNaN (dequantize (Fin byte) (Fin m, Fin m)) = false.
Proof.
  rewrite dequantize_Fin. simpl. split; [|split; reflexivity].
  change (inject_Z 255) with 255. field.
Qed.

(** ** Integer-valued numbers *)

Lemma add_of_Z (a b : Z) : (of_Z a + of_Z b)%js = of_Z (a + b).
Proof.
  unfold of_Z, add, inject_Z, Qplus; simpl. rewrite !Z.mul_1_r. reflexivity.
Qed.

Lemma sub_of_Z (a b : Z) : (of_Z a - of_Z b)%js = of_Z (a - b).
Proof.
  unfold sub, neg, of_Z, add, inject_Z, Qplus, Qopp; simpl.
  rewrite !Z.mul_1_r. reflexivity.
Qed.

Lemma mul_of_Z (a b : Z) : (of_Z a * of_Z b)%js = of_Z (a * b).
Proof. reflexivity. Qed.

Lemma Qle_bool_inject_Z (a b : Z) :
  Qle_bool (inject_Z a) (inject_Z b) = (a <=? b)%Z.
Proof. unfold Qle_bool, inject_Z; simpl. rewrite !Z.mul_1_r. reflexivity. Qed.

Lemma lt_of_Z (a b : Z) : (of_Z a <? of_Z b)%js = (a <? b)%Z.
Proof.
  unfold lt, of_Z. rewrite Qle_bool_inject_Z.
  rewrite Z.ltb_antisym. reflexivity.
Qed.

Lemma max_of_Z (a b : Z) : max (of_Z a) (of_Z b) = of_Z (Z.max a b).
Proof.
  unfold max. change (of_Z a) with (Fin (inject_Z a)) at 1.
  change (of_Z b) with (Fin (inject_Z b)) at 1. cbv iota.
  rewrite lt_of_Z. destruct (Z.ltb_spec a b).
  - rewrite Z.max_r by lia. reflexivity.
  - rewrite Z.max_l by lia. reflexivity.
Qed.

Lemma min_of_Z (a b : Z) : min (of_Z a) (of_Z b) = of_Z (Z.min a b).
Proof.
  unfold min. change (of_Z a) with (Fin (inject_Z a)) at 1.
  change (of_Z b) with (Fin (inject_Z b)) at 1. cbv iota.
  rewrite lt_of_Z. destruct (Z.ltb_spec b a).
  - rewrite Z.min_r by lia. reflexivity.
  - rewrite Z.min_l by lia. reflexivity.
Qed.

Lemma clamp_of_Z (value lo hi : Z) :
  clamp (of_Z value) (of_Z lo) (of_Z hi) = of_Z (Z.max lo (Z.min hi value)).
Proof. unfold clamp. rewrite min_of_Z, max_of_Z. reflexivity. Qed.

Lemma index_of_of_Z (z : Z) :
  (0 <= z)%Z -> index_of (of_Z z) = Some (Z.to_nat z).
Proof.
  intros H. unfold index_of, of_Z. rewrite Qfloor_Z.
  assert (E : Qeq_bool (inject_Z z) (inject_Z z) = true)
    by (apply Qeq_bool_iff; reflexivity).
  rewrite E. apply Z.leb_le in H. rewrite H. reflexivity.
Qed.

(** ** The interpolation-parameter calculator on finite inputs *)

Section CalculatorFinite.

Variables (w h : Z) (minLon minLat maxLon maxLat : Q).
Hypothesis w_pos : (1 <= w)%Z.
Hypothesis h_pos : (1 <= h)%Z.

Lemma inject_Z_nonzero (n : Z) : (1 <= n)%Z -> ~ inject_Z n == 0.
Proof. intros H E. unfold Qeq, inject_Z in E; simpl in E. lia. Qed.

Lemma cellSize_nonzero (span : Q) (n : Z) :
  (1 <= n)%Z -> ~ Spec.cellSize span n == 0.
Proof.
  intros Hn. unfold Spec.cellSize.
  destruct (Qeq_bool span 0) eqn:E.
  - intros H; discriminate H.
  - apply Qeq_bool_neq in E. intros H. apply E.
    pose proof (inject_Z_nonzero n Hn) as Hz.
    setoid_replace span with (span / inject_Z n * inject_Z n)
      by (field; exact Hz).
    rewrite H. ring.
Qed.

(** [span / n || 1] is the cell size of the specification. *)
Lemma part_finite (span : Q) (n : Z) :
  (1 <= n)%Z ->
  exists q : Q,
    (Fin span / of_Z n || 1%Z)%js = Fin q /\ q == Spec.cellSize span n.
Proof.
  intros Hn. pose proof (inject_Z_nonzero n Hn) as Hz.
  unfold of_Z at 1. rewrite (div_Fin _ _ Hz).
  unfold or_else, truthy, Spec.cellSize.
  destruct (Qeq_bool span 0) eqn:E.
  - apply Qeq_bool_iff in E.
    assert (E' : Qeq_bool (span / inject_Z n) 0 = true).
    { apply Qeq_bool_iff. rewrite E. field. exact Hz. }
    rewrite E'. simpl. exists (inject_Z 1). split; reflexivity.
  - apply Qeq_bool_neq in E.
    assert (E' : Qeq_bool (span / inject_Z n) 0 = false).
    { apply Qeq_bool_false. intros H. apply E.
      setoid_replace span with (span / inject_Z n * inject_Z n)
        by (field; exact Hz).
      rewrite H. ring. }
    rewrite E'. simpl. eexists. split; reflexivity.
Qed.

Lemma dx_finite :
  (if (Fin maxLon <? Fin minLon)%js
   then (180%Z - Fin minLon + (180%Z + Fin maxLon))%js
   else abs (Fin maxLon - Fin minLon)%js)
  = Fin (Spec.spanLon minLon maxLon).
Proof.
  unfold Spec.spanLon, Spec.wraps, lt.
  destruct (Qle_bool minLon maxLon); reflexivity.
Qed.

Lemma lon_finite (lon : Q) :
  (if (Fin maxLon <? Fin minLon)%js && (Fin lon <=? Fin maxLon)%js
   then (Fin lon + 360%Z)%js else Fin lon)
  = Fin (Spec.lonAdj minLon maxLon lon).
Proof.
  unfold Spec.lonAdj, Spec.wraps, lt, le.
  destruct (Qle_bool minLon maxLon), (Qle_bool lon maxLon); reflexivity.
Qed.

Lemma calculator_finite (lon lat : Q) (out : option InterpolationParams) :
  exists xc yc : Q,
    xc == Spec.xCell w minLon maxLon lon
    /\ yc == Spec.yCell h minLat maxLat lat
    /\ createCoordinateCalculator (of_Z w) (of_Z h)
         (mkExtent (Fin minLon) (Fin minLat) (Fin maxLon) (Fin maxLat))
         (Fin lon) (Fin lat) out
       = paramsOfCells w h xc yc.
Proof.
  destruct (part_finite (Spec.spanLon minLon maxLon) w w_pos)
    as [px [Epx Hpx]].
  destruct (part_finite (Spec.spanLat minLat maxLat) h h_pos)
    as [py [Epy Hpy]].
  assert (Hpx0 : ~ px == 0)
    by (rewrite Hpx; apply cellSize_nonzero; exact w_pos).
  assert (Hpy0 : ~ py == 0)
    by (rewrite Hpy; apply cellSize_nonzero; exact h_pos).
  exists ((Spec.lonAdj minLon maxLon lon - minLon) / px),
         ((lat - minLat) / py).
  split; [|split].
  - unfold Spec.xCell, Spec.cellWidth. rewrite Hpx. reflexivity.
  - unfold Spec.yCell, Spec.cellHeight. rewrite Hpy. reflexivity.
  - unfold createCoordinateCalculator; cbn [e0 e1 e2 e3].
    rewrite dx_finite, lon_finite, Epx.
    change (abs (Fin maxLat - Fin minLat)%js)
      with (Fin (Spec.spanLat minLat maxLat)).
    rewrite Epy.
    change (Fin (Spec.lonAdj minLon maxLon lon) - Fin minLon)%js
      with (Fin (Spec.lonAdj minLon maxLon lon - minLon)).
    change (Fin lat - Fin minLat)%js with (Fin (lat - minLat)).
    rewrite (div_Fin _ _ Hpx0), (div_Fin _ _ Hpy0).
    cbn [floor ceil].
    rewrite !sub_of_Z, !add_of_Z, !clamp_of_Z, !mul_of_Z, !add_of_Z.
    unfold paramsOfCells, Spec.flat, Spec.clampTo.
    destruct out; reflexivity.
Qed.

End CalculatorFinite.

(** C1.  On a grid of at least one column and one row, with a finite extent,
    the record computed for a finite coordinate is the one the algorithm
    describes: a longitude in the low segment of a wrapping extent is shifted
    by 360; the cell coordinates are the offsets from minLon and minLat
    divided by the cell size (span over cell count, 1 on a degenerate axis);
    the columns are floor(xCell) and floor(xCell)+1 clamped to [0, w-1]; the
    rows are h-1-floor(yCell) and h-1-ceil(yCell) clamped to [0, h-1]; the
    four indices address these cells row-major; rx and ry are the fractional
    parts that floor leaves. *)
Theorem calculator_follows_algorithm
    (w h : Z) (minLon minLat maxLon maxLat lon lat : Q)
    (out : option InterpolationParams) :
  (1 <= w)%Z -> (1 <= h)%Z ->
  let p :=
    createCoordinateCalculator (of_Z w) (of_Z h)
      (mkExtent (Fin minLon) (Fin minLat) (Fin maxLon) (Fin maxLat))
      (Fin lon) (Fin lat) out in
  let col0 := Spec.x0 w minLon maxLon lon in
  let col1 := Spec.x1 w minLon maxLon lon in
  let rowF := Spec.rowOfFloor h minLat maxLat lat in
  let rowC := Spec.rowOfCeil h minLat maxLat lat in
  i11 p = of_Z (Spec.flat w col0 rowF)
  /\ i12 p = of_Z (Spec.flat w col0 rowC)
  /\ i21 p = of_Z (Spec.flat w col1 rowF)
  /\ i22 p = of_Z (Spec.flat w col1 rowC)
  /\ rx p =n= Fin (Spec.rx w minLon maxLon lon)
  /\ ry p =n= Fin (Spec.ry h minLat maxLat lat).
Proof.
  intros Hw Hh.
  destruct (calculator_finite w h minLon minLat maxLon maxLat Hw Hh lon lat out)
    as [xc [yc [Hxc [Hyc E]]]].
  cbv zeta. rewrite E. unfold paramsOfCells; cbn [i11 i12 i21 i22 rx ry].
  unfold Spec.x0, Spec.x1, Spec.rowOfFloor, Spec.rowOfCeil, Spec.rx, Spec.ry.
  rewrite <- (Qfloor_comp _ _ Hxc), <- (Qfloor_comp _ _ Hyc),
    <- (Qceiling_comp _ _ Hyc).
  repeat (split; [reflexivity|]).
  split; cbn [num_eq]; unfold Qminus; apply Qplus_comp;
    solve [assumption | reflexivity].
Qed.

Lemma calculator_follows_algorithm_witness :
  let p :=
    createCoordinateCalculator 4%Z 2%Z
      (mkExtent 170%Z (-10)%Z (-170)%Z 10%Z) (-175)%Z 5%Z None in
  i11 p = 3%Z /\ i12 p = 3%Z /\ i21 p = 3%Z /\ i22 p = 3%Z
  /\ rx p =n= 0%Z /\ ry p =n= Fin (1 # 2).
Proof.
  pose proof (calculator_follows_algorithm 4 2 170 (-(10)) (-(170)) 10
                (-(175)) 5 None) as H.
  cbv zeta in H.
  assert (H4 : (1 <= 4)%Z) by lia.
  assert (H2 : (1 <= 2)%Z) by lia.
  specialize (H H4 H2).
  destruct H as [A [B [C [D [F G]]]]].
  cbv zeta.
  split; [exact A|]. split; [exact B|]. split; [exact C|].
  split; [exact D|]. split.
  - apply (num_eq_trans _ _ _ F). vm_compute. reflexivity.
  - apply (num_eq_trans _ _ _ G). vm_compute. reflexivity.
Defined.

(** ** The data-model invariant of the parameter record *)

Lemma clampTo_range (lo hi value : Z) :
  (lo <= hi)%Z ->
  (lo <= Spec.clampTo lo hi value <= hi)%Z.
Proof. unfold Spec.clampTo. lia. Qed.

Lemma flat_range (w h col row : Z) :
  (0 <= col <= w - 1)%Z -> (0 <= row <= h - 1)%Z ->
  (0 <= Spec.flat w col row <= w * h - 1)%Z.
Proof. unfold Spec.flat. intros Hc Hr. nia. Qed.

Lemma fractional_part_unit (x : Q) :
  0 <= x - inject_Z (Qfloor x) /\ x - inject_Z (Qfloor x) < 1.
Proof.
  pose proof (Qfloor_le x) as Hlo. pose proof (Qlt_floor x) as Hhi.
  rewrite inject_Z_plus in Hhi. change (inject_Z 1) with 1 in Hhi.
  split; lra.
Qed.

Lemma paramsOfCells_valid (w h : Z) (xc yc : Q) :
  (1 <= w)%Z -> (1 <= h)%Z -> validParams (w * h) (paramsOfCells w h xc yc).
Proof.
  intros Hw Hh. unfold validParams, paramsOfCells; cbn [i11 i12 i21 i22 rx ry].
  assert (Hidx : forall c r,
             validIndex (w * h)
               (of_Z (Spec.flat w (Spec.clampTo 0 (w - 1) c)
                                  (Spec.clampTo 0 (h - 1) r)))).
  { intros c r. eexists; split; [reflexivity|].
    apply flat_range; apply clampTo_range; lia. }
  assert (Hoff : forall x, unitOffset (Fin (x - inject_Z (Qfloor x)))).
  { intros x. eexists; split; [reflexivity|].
    destruct (fractional_part_unit x). split; lra. }
  repeat (split; [solve [apply Hidx | apply Hoff]|]). apply Hoff.
Qed.



(** ** Missing data *)

Lemma mul_NaN_r (a : num) : (a * NaN)%js = NaN.
Proof. destruct a; reflexivity. Qed.

Lemma add_NaN_r (a : num) : (a + NaN)%js = NaN.
Proof. destruct a; reflexivity. Qed.

Lemma isNaN_true (a : num) : isNaN a = true -> a = NaN.
Proof. destruct a; simpl; intros H; try discriminate; reflexivity. Qed.

Lemma interpolate_missing (grid : Grid) (params : InterpolationParams) :
  hasMissingNeighbor grid params = true ->
  interpolateGridValue grid params = NaN.
Proof.
  unfold hasMissingNeighbor, interpolateGridValue.
  rewrite !orb_true_iff. intros [[[H | H] | H] | H];
    apply isNaN_true in H; rewrite H;
    repeat first [rewrite mul_NaN_r | rewrite add_NaN_r]; reflexivity.
Qed.

Lemma LabelGrid_values_missing (ex : LabelExtremes)
    (params : InterpolationParams) (grids : list Grid) :
  forall k : nat,
    (forall i : nat, (i < List.length grids)%nat -> rangeOf ex (k + i) <> None) ->
    existsb (fun g => hasMissingNeighbor g params) grids = true ->
    LabelGrid_values ex params k grids = Ok None.
Proof.
  induction grids as [|grid rest IH]; intros k Hcover Hmiss.
  - discriminate Hmiss.
  - cbn [LabelGrid_values].
    destruct (isNaN (interpolateGridValue grid params)) eqn:Eraw;
      [reflexivity|].
    cbn [existsb] in Hmiss. apply orb_true_iff in Hmiss.
    destruct Hmiss as [Hhead | Hrest].
    + rewrite (interpolate_missing _ _ Hhead) in Eraw. discriminate Eraw.
    + destruct (rangeOf ex k) as [r|] eqn:Er.
      * cbn [dequantize_at bind]. rewrite IH; [reflexivity| |exact Hrest].
        intros i Hi. replace (S k + i)%nat with (k + S i)%nat by lia.
        apply Hcover. cbn [List.length]. lia.
      * exfalso. apply (Hcover 0%nat); [cbn [List.length]; lia|].
        rewrite Nat.add_0_r. exact Er.
Qed.

Lemma LabelGrid_mapChannels_missing (ex : LabelExtremes)
    (params : InterpolationParams) (grids : list Grid) :
  forall k : nat,
    (forall i : nat, (i < List.length grids)%nat -> rangeOf ex (k + i) <> None) ->
    exists values : list num,
      LabelGrid_mapChannels ex params k grids = Ok values
      /\ List.length values = List.length grids
      /\ forall (i : nat) (g : Grid),
           nth_error grids i = Some g ->
           hasMissingNeighbor g params = true ->
           nth_error values i = Some NaN.
Proof.
  induction grids as [|grid rest IH]; intros k Hcover.
  - exists []. split; [reflexivity|]. split; [reflexivity|].
    intros [|i] g H; discriminate H.
  - destruct (IH (S k)) as [more [Emore [Hlen Hnth]]].
    { intros i Hi. replace (S k + i)%nat with (k + S i)%nat by lia.
      apply Hcover. cbn [List.length]. lia. }
    cbn [LabelGrid_mapChannels]. rewrite Emore.
    destruct (isNaN (interpolateGridValue grid params)) eqn:Eraw.
    + exists (NaN :: more). cbn [bind]. split; [reflexivity|].
      split; [cbn [List.length]; congruence|].
      intros [|i] g Hg Hm; [reflexivity|]. apply (Hnth i g Hg Hm).
    + destruct (rangeOf ex k) as [r|] eqn:Er.
      * exists (dequantize (interpolateGridValue grid params) r :: more).
        cbn [dequantize_at bind]. split; [reflexivity|].
        split; [cbn [List.length]; congruence|].
        intros [|i] g Hg Hm.
        -- cbn [nth_error] in Hg. injection Hg as ->.
           rewrite (interpolate_missing _ _ Hm) in Eraw. discriminate Eraw.
        -- apply (Hnth i g Hg Hm).
      * exfalso. apply (Hcover 0%nat); [cbn [List.length]; lia|].
        rewrite Nat.add_0_r. exact Er.
Qed.

Lemma LabelGrid_values_defined (ex : LabelExtremes)
    (params : InterpolationParams) (grids : list Grid) :
  forall (k : nat) (values : list num),
    LabelGrid_values ex params k grids = Ok (Some values) ->
    existsb (fun g => hasMissingNeighbor g params) grids = false.
Proof.
  induction grids as [|grid rest IH]; intros k values H; [reflexivity|].
  cbn [LabelGrid_values] in H. cbn [existsb].
  destruct (hasMissingNeighbor grid params) eqn:Hm.
  - rewrite (interpolate_missing _ _ Hm) in H. discriminate H.
  - cbn [orb].
    destruct (isNaN (interpolateGridValue grid params)); [discriminate H|].
    destruct (dequantize_at _ _) as [value|]; [|discriminate H].
    cbn [bind] in H.
    destruct (LabelGrid_values ex params (S k) rest) as [[more|]|] eqn:Er;
      try discriminate H.
    apply (IH (S k) more Er).
Qed.

Lemma forEachSample_In {A : Type}
    (body : num -> num -> js_result (option A))
    (points : list (num * num)) :
  forall (out : list (num * num * A)) (i j : num) (a : A),
    forEachSample body points = Ok out ->
    In (i, j, a) out ->
    In (i, j) points /\ body i j = Ok (Some a).
Proof.
  induction points as [|[i0 j0] rest IH]; intros out i j a H Hin.
  - injection H as <-. contradiction.
  - cbn [forEachSample] in H.
    destruct (body i0 j0) as [r|] eqn:Eb; [|discriminate H].
    destruct (forEachSample body rest) as [more|] eqn:Er; [|discriminate H].
    cbn [bind] in H. injection H as <-.
    destruct r as [a0|].
    + destruct Hin as [E | Hin].
      * injection E as -> -> ->. split; [left; reflexivity | exact Eb].
      * destruct (IH more i j a eq_refl Hin) as [Hp Hb].
        split; [right; exact Hp | exact Hb].
    + destruct (IH more i j a eq_refl Hin) as [Hp Hb].
      split; [right; exact Hp | exact Hb].
Qed.

Section MissingData.

Variable transform : num -> num -> num * num.
Variable getOrigin : num -> num * num.
Variable getResolution : num -> num.
Variable hypot : num -> num -> num.
Variable atan2 : num -> num -> num.

Lemma ColorGrid_tile_defined (fuel : nat) (this : ColorGrid) (z x y : num)
    (drawn : list (num * num * num)) (i j value : num) :
  let bbox :=
    tileBBox (getOrigin z) (getResolution z) (tileW this) (tileH this) x y in
  ColorGrid_loadTile transform getOrigin getResolution fuel this z x y
  = Some (Ok drawn) ->
  In (i, j, value) drawn ->
  hasMissingNeighbor (data this)
    (paramsAt this (samplePoint transform this bbox i j)) = false.
Proof.
  intros bbox H Hin. unfold ColorGrid_loadTile in H. fold bbox in H.
  destruct (samplePoints _ _ _ _) as [points|]; [|discriminate H].
  injection H as H.
  destruct (forEachSample_In _ _ _ _ _ _ H Hin) as [_ Hb].
  injection Hb as Hb.
  destruct (hasMissingNeighbor _ _) eqn:Hm; [|reflexivity].
  unfold ColorGrid_sample in Hb.
  destruct (negb _); [discriminate Hb|].
  fold (paramsAt this (samplePoint transform this bbox i j)) in Hb.
  rewrite (interpolate_missing _ _ Hm) in Hb. discriminate Hb.
Qed.

Lemma ArrowGrid_tile_defined (fuel : nat) (this : ArrowGrid)
    (threshold z x y : num) (drawn : list (num * num * ArrowData))
    (i j : num) (a : ArrowData) :
  let bbox :=
    tileBBox (getOrigin z) (getResolution z) (tileW this) (tileH this) x y in
  let params := paramsAt this (samplePoint transform this bbox i j) in
  ArrowGrid_loadTile transform getOrigin getResolution hypot atan2
    fuel this threshold z x y = Some (Ok drawn) ->
  In (i, j, a) drawn ->
  hasMissingNeighbor (fst (data this)) params
  || hasMissingNeighbor (snd (data this)) params = false.
Proof.
  intros bbox params H Hin. unfold ArrowGrid_loadTile in H. fold bbox in H.
  destruct (samplePoints _ _ _ _) as [points|]; [|discriminate H].
  injection H as H.
  destruct (forEachSample_In _ _ _ _ _ _ H Hin) as [_ Hb].
  destruct (_ || _)%bool eqn:Hm; [|reflexivity].
  unfold ArrowGrid_sample in Hb.
  destruct (negb _); [discriminate Hb|].
  fold (paramsAt this (samplePoint transform this bbox i j)) in Hb.
  fold params in Hb.
  apply orb_true_iff in Hm. destruct Hm as [Hm | Hm];
    rewrite (interpolate_missing _ _ Hm) in Hb;
    [|rewrite orb_true_r in Hb]; discriminate Hb.
Qed.

Lemma LabelGrid_tile_defined (fuel : nat) (this : LabelGrid) (z x y : num)
    (drawn : list (num * num * list num)) (i j : num) (values : list num) :
  let bbox :=
    tileBBox (getOrigin z) (getResolution z) (tileW this) (tileH this) x y in
  let params := paramsAt this (samplePoint transform this bbox i j) in
  LabelGrid_loadTile transform getOrigin getResolution fuel this z x y
  = Some (Ok drawn) ->
  In (i, j, values) drawn ->
  existsb (fun g => hasMissingNeighbor g params) (data this) = false.
Proof.
  intros bbox params H Hin. unfold LabelGrid_loadTile in H. fold bbox in H.
  destruct (samplePoints _ _ _ _) as [points|]; [|discriminate H].
  injection H as H.
  destruct (forEachSample_In _ _ _ _ _ _ H Hin) as [_ Hb].
  unfold LabelGrid_sample in Hb.
  destruct (negb _); [discriminate Hb|].
  apply (LabelGrid_values_defined _ _ _ _ _ Hb).
Qed.

(** C3.  When one of the four neighbor values is the missing-data value,
    [interpolateGridValue] is NaN, whatever the offsets; a sample point of a
    tile whose parameters hit such a neighbor is skipped by all three
    renderers, and the point queries report it missing: [null] from the
    raster and vector queries, a NaN entry for that channel from the label
    query.  None of these throws (for the label source, given a value range
    for every channel; for the vector source the skip comes before the range
    is read).  Whatever a rendered tile draws, it draws at samples none of
    whose neighbors is missing. *)
Theorem missing_data_propagates :
  (forall (grid : Grid) (params : InterpolationParams),
      hasMissingNeighbor grid params = true ->
      interpolateGridValue grid params = NaN)
  /\ (forall (this : ColorGrid) (bbox : Extent) (i j : num),
      hasMissingNeighbor (data this)
        (paramsAt this (samplePoint transform this bbox i j)) = true ->
      ColorGrid_sample transform this bbox i j = None)
  /\ (forall (this : ColorGrid) (coordinate : num * num),
      hasMissingNeighbor (data this)
        (paramsAt this (transform (fst coordinate) (snd coordinate))) = true ->
      ColorGrid_getDataAtCoordinate transform this coordinate = None)
  /\ (forall (this : ArrowGrid) (threshold : num) (bbox : Extent) (i j : num),
      let params := paramsAt this (samplePoint transform this bbox i j) in
      hasMissingNeighbor (fst (data this)) params
      || hasMissingNeighbor (snd (data this)) params = true ->
      ArrowGrid_sample transform hypot atan2 this threshold bbox i j
      = Ok None)
  /\ (forall (this : ArrowGrid) (coordinate : num * num),
      let params :=
        paramsAt this (transform (fst coordinate) (snd coordinate)) in
      hasMissingNeighbor (fst (data this)) params
      || hasMissingNeighbor (snd (data this)) params = true ->
      ArrowGrid_getVectorAtCoordinate transform hypot atan2 this coordinate
      = Ok None)
  /\ (forall (this : LabelGrid) (bbox : Extent) (i j : num),
      let params := paramsAt this (samplePoint transform this bbox i j) in
      rangesCover (extremes this) (List.length (data this)) ->
      existsb (fun g => hasMissingNeighbor g params) (data this) = true ->
      LabelGrid_sample transform this bbox i j = Ok None)
  /\ (forall (this : LabelGrid) (coordinate : num * num),
      let params :=
        paramsAt this (transform (fst coordinate) (snd coordinate)) in
      rangesCover (extremes this) (List.length (data this)) ->
      exists values : list num,
        LabelGrid_getDataAtCoordinate transform this coordinate = Ok values
        /\ List.length values = List.length (data this)
        /\ forall (k : nat) (g : Grid),
             nth_error (data this) k = Some g ->
             hasMissingNeighbor g params = true ->
             nth_error values k = Some NaN)
  /\ (forall (fuel : nat) (z x y i j : num),
      (forall (this : ColorGrid) drawn value,
          ColorGrid_loadTile transform getOrigin getResolution fuel this z x y
          = Some (Ok drawn) ->
          In (i, j, value) drawn ->
          hasMissingNeighbor (data this)
            (paramsAt this
               (samplePoint transform this
                  (tileBBox (getOrigin z) (getResolution z)
                     (tileW this) (tileH this) x y) i j)) = false)
      /\ (forall (this : ArrowGrid) threshold drawn a,
          let params :=
            paramsAt this
              (samplePoint transform this
                 (tileBBox (getOrigin z) (getResolution z)
                    (tileW this) (tileH this) x y) i j) in
          ArrowGrid_loadTile transform getOrigin getResolution hypot atan2
            fuel this threshold z x y = Some (Ok drawn) ->
          In (i, j, a) drawn ->
          hasMissingNeighbor (fst (data this)) params
          || hasMissingNeighbor (snd (data this)) params = false)
      /\ (forall (this : LabelGrid) drawn values,
          let params :=
            paramsAt this
              (samplePoint transform this
                 (tileBBox (getOrigin z) (getResolution z)
                    (tileW this) (tileH this) x y) i j) in
          LabelGrid_loadTile transform getOrigin getResolution fuel this z x y
          = Some (Ok drawn) ->
          In (i, j, values) drawn ->
          existsb (fun g => hasMissingNeighbor g params) (data this) = false)).
Proof.
  split; [exact interpolate_missing|].
  split; [|split; [|split; [|split; [|split; [|split]]]]].
  - intros this bbox i j H. unfold ColorGrid_sample.
    destruct (negb _); [reflexivity|].
    fold (paramsAt this (samplePoint transform this bbox i j)).
    rewrite (interpolate_missing _ _ H). reflexivity.
  - intros this coordinate H. unfold ColorGrid_getDataAtCoordinate.
    fold (paramsAt this (transform (fst coordinate) (snd coordinate))).
    rewrite (interpolate_missing _ _ H). reflexivity.
  - intros this threshold bbox i j params H. unfold ArrowGrid_sample.
    destruct (negb _); [reflexivity|].
    fold (paramsAt this (samplePoint transform this bbox i j)).
    fold params.
    apply orb_true_iff in H. destruct H as [H | H];
      rewrite (interpolate_missing _ _ H);
      [reflexivity | rewrite orb_true_r; reflexivity].
  - intros this coordinate params H.
    unfold ArrowGrid_getVectorAtCoordinate.
    fold (paramsAt this (transform (fst coordinate) (snd coordinate))).
    fold params.
    apply orb_true_iff in H. destruct H as [H | H];
      rewrite (interpolate_missing _ _ H);
      [reflexivity | rewrite orb_true_r; reflexivity].
  - intros this bbox i j params Hcover H. unfold LabelGrid_sample.
    destruct (negb _); [reflexivity|].
    apply LabelGrid_values_missing; [|exact H].
    intros k Hk. apply Hcover. exact Hk.
  - intros this coordinate params Hcover.
    unfold LabelGrid_getDataAtCoordinate.
    apply LabelGrid_mapChannels_missing.
    intros k Hk. apply Hcover. exact Hk.
  - intros fuel z x y i j. split; [|split].
    + intros this drawn value. apply ColorGrid_tile_defined.
    + intros this threshold drawn a. apply ArrowGrid_tile_defined.
    + intros this drawn values. apply LabelGrid_tile_defined.
Qed.

End MissingData.

Lemma missing_data_propagates_witness :
  interpolateGridValue [Fin 7; NaN]
    (mkParams 0%Z 0%Z 1%Z 1%Z (Fin (1 # 2)) 0%Z) = NaN
  /\ ColorGrid_getDataAtCoordinate pair
       (exampleColorGrid [Fin 7; NaN] 2 1
          (mkExtent 0%Z 0%Z 2%Z 1%Z) (Some (0%Z : num, 10%Z : num)))
       (Fin (1 # 2), Fin (1 # 2)) = None.
Proof.
  destruct (missing_data_propagates pair (fun _ => (of_Z 0, of_Z 0))
              (fun _ => of_Z 1) hypotDown (fun _ _ => NaN))
    as [Hi [_ [Hq _]]].
  split.
  - apply Hi. reflexivity.
  - apply Hq. vm_compute. reflexivity.
Defined.

(** ** Interpolation on a grid node *)




(** ** The vector renderer *)

Lemma Qeq_0_num (p : Q) : p == 0 -> Qnum p = 0%Z.
Proof. unfold Qeq; simpl. lia. Qed.

Lemma hypotDown_zero (p q : Q) :
  p == 0 -> q == 0 -> hypotDown (Fin p) (Fin q) =n= Fin 0.
Proof.
  intros Hp Hq. apply Qeq_0_num in Hp, Hq.
  destruct p as [pn pd], q as [qn qd]; simpl in Hp, Hq; subst.
  unfold hypotDown, num_eq, Qeq; simpl. reflexivity.
Qed.

Lemma lt_zero_speed (s : num) (t : Q) :
  s =n= Fin 0 -> (s <? Fin t)%js = negb (Qle_bool t 0).
Proof.
  destruct s as [| | |z]; simpl; try contradiction.
  intros Hz. rewrite Hz. reflexivity.
Qed.

Lemma forEachSample_select {A : Type}
    (body : num -> num -> js_result (option A))
    (keep : num * num -> bool) (item : num * num -> num * num * A)
    (points : list (num * num)) :
  (forall ij : num * num,
      In ij points ->
      body (fst ij) (snd ij)
      = Ok (if keep ij then Some (snd (item ij)) else None)) ->
  (forall ij : num * num, fst (item ij) = ij) ->
  forEachSample body points = Ok (map item (filter keep points)).
Proof.
  intros Hbody Hitem. induction points as [|[i j] rest IH]; [reflexivity|].
  cbn [forEachSample filter].
  pose proof (Hbody (i, j) (or_introl eq_refl)) as Hb.
  cbn [fst snd] in Hb. rewrite Hb.
  rewrite IH by (intros ij Hin; apply Hbody; right; exact Hin).
  cbn [bind]. destruct (keep (i, j)); [|reflexivity].
  cbn [map]. f_equal. f_equal.
  pose proof (Hitem (i, j)) as E.
  destruct (item (i, j)) as [[i' j'] a]. cbn [fst snd] in *.
  injection E as -> ->. reflexivity.
Qed.

Section VectorRenderer.

Variable transform : num -> num -> num * num.
Variable getOrigin : num -> num * num.
Variable getResolution : num -> num.
Variable hypot : num -> num -> num.
Variable atan2 : num -> num -> num.

(** The one fact about [Math.hypot] the zero-field case needs. *)
Hypothesis hypot_zero :
  forall p q : Q, p == 0 -> q == 0 -> hypot (Fin p) (Fin q) =n= Fin 0.

Lemma ArrowGrid_sample_inside
    (this : ArrowGrid) (threshold : num) (bbox : Extent) (i j : num)
    (r : Range) :
  let point := samplePoint transform this bbox i j in
  let params := paramsAt this point in
  let a := arrowAt hypot atan2 this params r in
  extremes this = Some r ->
  checkExtent this (fst point) (snd point) = true ->
  isNaN (interpolateGridValue (fst (data this)) params)
  || isNaN (interpolateGridValue (snd (data this)) params) = false ->
  ArrowGrid_sample transform hypot atan2 this threshold bbox i j
  = if (speed a <? threshold)%js then Ok None else Ok (Some a).
Proof.
  intros point params a Hr Hin Hdata.
  unfold ArrowGrid_sample. fold point. rewrite Hin. cbn [negb].
  fold (paramsAt this point). fold params. rewrite Hdata, Hr.
  cbn [dequantize_at bind]. reflexivity.
Qed.

Lemma ArrowGrid_sample_emitted
    (this : ArrowGrid) (threshold : num) (bbox : Extent) (i j : num)
    (a : ArrowData) :
  ArrowGrid_sample transform hypot atan2 this threshold bbox i j
  = Ok (Some a) ->
  speed a = hypot (u a) (v a)
  /\ angle a = atan2 (- v a)%js (u a)
  /\ (speed a <? threshold)%js = false.
Proof.
  unfold ArrowGrid_sample.
  destruct (negb _); [discriminate|].
  destruct (_ || _)%bool; [discriminate|].
  destruct (extremes this) as [r|]; [|discriminate].
  cbn [dequantize_at bind].
  match goal with |- context [if ?c then _ else _] => destruct c eqn:E end;
    [discriminate|].
  intros H. injection H as <-. cbn [speed angle u v].
  repeat split. exact E.
Qed.

Lemma zero_vector_speed (a : ArrowData) :
  speed a = hypot (u a) (v a) ->
  u a =n= Fin 0 -> v a =n= Fin 0 -> speed a =n= Fin 0.
Proof.
  intros Hs Hu Hv. rewrite Hs.
  destruct (u a) as [| | |p]; simpl in Hu; try contradiction.
  destruct (v a) as [| | |q]; simpl in Hv; try contradiction.
  apply hypot_zero; assumption.
Qed.

Lemma speedThreshold_positive (t : Q) :
  0 < t -> speedThreshold_of (Some (Fin t)) = Fin t.
Proof.
  intros Ht. unfold speedThreshold_of, or_else, truthy.
  rewrite Qeq_bool_false by lra. reflexivity.
Qed.

Lemma speedThreshold_zero (opt : option num) :
  opt = None \/ (exists t : Q, opt = Some (Fin t) /\ t == 0) ->
  speedThreshold_of opt = of_Z 0.
Proof.
  intros [-> | [t [-> Ht]]]; [reflexivity|].
  unfold speedThreshold_of, or_else, truthy.
  apply Qeq_bool_iff in Ht. rewrite Ht. reflexivity.
Qed.

Lemma ArrowGrid_sample_outside
    (this : ArrowGrid) (threshold : num) (bbox : Extent) (ij : num * num) :
  hasVector transform this bbox ij = false ->
  ArrowGrid_sample transform hypot atan2 this threshold bbox (fst ij) (snd ij)
  = Ok None.
Proof.
  unfold hasVector, ArrowGrid_sample, paramsAt. intros H.
  destruct (checkExtent this _ _); [|reflexivity].
  cbn [andb negb] in *. apply negb_false_iff in H. rewrite H. reflexivity.
Qed.

Lemma hasVector_inside
    (this : ArrowGrid) (bbox : Extent) (ij : num * num) :
  hasVector transform this bbox ij = true ->
  let point := samplePoint transform this bbox (fst ij) (snd ij) in
  checkExtent this (fst point) (snd point) = true
  /\ isNaN (interpolateGridValue (fst (data this)) (paramsAt this point))
     || isNaN (interpolateGridValue (snd (data this)) (paramsAt this point))
     = false.
Proof.
  unfold hasVector. cbv zeta. intros H. apply andb_true_iff in H.
  destruct H as [Hin Hdata]. apply negb_true_iff in Hdata.
  split; assumption.
Qed.

Lemma zero_field_tile
    (fuel : nat) (this : ArrowGrid) (z x y : num) (r : Range)
    (points : list (num * num)) :
  let bbox :=
    tileBBox (getOrigin z) (getResolution z) (tileW this) (tileH this) x y in
  extremes this = Some r ->
  samplePoints fuel (tileW this) (tileH this) (steps this) = Some points ->
  (forall ij : num * num,
      In ij points ->
      hasVector transform this bbox ij = true ->
      u (snd (vectorOf transform hypot atan2 this bbox r ij)) =n= Fin 0
      /\ v (snd (vectorOf transform hypot atan2 this bbox r ij)) =n= Fin 0) ->
  (forall t : Q,
      0 < t ->
      ArrowGrid_loadTile transform getOrigin getResolution hypot atan2
        fuel this (speedThreshold_of (Some (Fin t))) z x y
      = Some (Ok []))
  /\ (forall opt : option num,
         opt = None \/ (exists t : Q, opt = Some (Fin t) /\ t == 0) ->
         ArrowGrid_loadTile transform getOrigin getResolution hypot atan2
           fuel this (speedThreshold_of opt) z x y
         = Some (Ok (map (vectorOf transform hypot atan2 this bbox r)
                       (filter (hasVector transform this bbox) points)))).
Proof.
  intros bbox Hr Hpts Hzero.
  assert (Hspeed : forall ij,
             In ij points -> hasVector transform this bbox ij = true ->
             speed (snd (vectorOf transform hypot atan2 this bbox r ij))
             =n= Fin 0).
  { intros ij Hin Hvis. destruct (Hzero ij Hin Hvis) as [Hu Hv].
    apply zero_vector_speed; [reflexivity | exact Hu | exact Hv]. }
  split.
  - intros t Ht. unfold ArrowGrid_loadTile. fold bbox. rewrite Hpts.
    f_equal. rewrite (speedThreshold_positive t Ht).
    rewrite (forEachSample_select _ (fun _ => false)
               (vectorOf transform hypot atan2 this bbox r)).
    + clear. induction points as [|p rest IH]; [reflexivity | exact IH].
    + intros ij Hin.
      destruct (hasVector transform this bbox ij) eqn:Hvis.
      * destruct (hasVector_inside this bbox ij Hvis) as [Hext Hdata].
        rewrite (ArrowGrid_sample_inside this (Fin t) bbox _ _ r Hr Hext Hdata).
        pose proof (Hspeed ij Hin Hvis) as Hs. unfold vectorOf in Hs.
        cbn [snd] in Hs. rewrite (lt_zero_speed _ t Hs).
        assert (E : Qle_bool t 0 = false).
        { destruct (Qle_bool t 0) eqn:E; [|reflexivity].
          apply Qle_bool_iff in E. lra. }
        rewrite E. reflexivity.
      * apply ArrowGrid_sample_outside. exact Hvis.
    + intros [i j]. reflexivity.
  - intros opt Hopt. unfold ArrowGrid_loadTile. fold bbox. rewrite Hpts.
    f_equal. rewrite (speedThreshold_zero opt Hopt).
    apply forEachSample_select.
    + intros ij Hin.
      destruct (hasVector transform this bbox ij) eqn:Hvis.
      * destruct (hasVector_inside this bbox ij Hvis) as [Hext Hdata].
        rewrite (ArrowGrid_sample_inside this (of_Z 0) bbox _ _ r Hr Hext
                   Hdata).
        pose proof (Hspeed ij Hin Hvis) as Hs. unfold vectorOf in Hs.
        cbn [snd] in Hs. unfold of_Z. rewrite (lt_zero_speed _ _ Hs).
        reflexivity.
      * apply ArrowGrid_sample_outside. exact Hvis.
    + intros [i j]. reflexivity.
Qed.

(** C9.  An arrow is stroked only with speed = hypot(u, v), angle =
    atan2(-v, u) and a speed that is not below the threshold; a sample
    point inside the extent, with both channels defined, is stroked exactly
    when its speed is not below the threshold.  Where the dequantized
    components are both 0 the speed is 0: every such point is skipped under a
    positive threshold, and none of them is skipped when the threshold is 0
    or unset; a tile over such a zero field strokes no arrow under a
    positive threshold, and under a zero threshold an arrow at every sample
    that is inside the extent and has data.  The point query returns the
    same u, v, speed and angle, or [null] when a channel is missing. *)
Theorem vector_renderer_speed_and_angle :
  (forall (this : ArrowGrid) (threshold : num) (bbox : Extent) (i j : num)
          (a : ArrowData),
      ArrowGrid_sample transform hypot atan2 this threshold bbox i j
      = Ok (Some a) ->
      speed a = hypot (u a) (v a)
      /\ angle a = atan2 (- v a)%js (u a)
      /\ (speed a <? threshold)%js = false)
  /\ (forall (this : ArrowGrid) (threshold : num) (bbox : Extent) (i j : num)
             (r : Range),
      let point := samplePoint transform this bbox i j in
      let params := paramsAt this point in
      let a := arrowAt hypot atan2 this params r in
      extremes this = Some r ->
      checkExtent this (fst point) (snd point) = true ->
      isNaN (interpolateGridValue (fst (data this)) params)
      || isNaN (interpolateGridValue (snd (data this)) params) = false ->
      ArrowGrid_sample transform hypot atan2 this threshold bbox i j
      = if (speed a <? threshold)%js then Ok None else Ok (Some a))
  /\ (forall (this : ArrowGrid) (bbox : Extent) (i j : num) (r : Range)
             (t : Q),
      let point := samplePoint transform this bbox i j in
      let a := arrowAt hypot atan2 this (paramsAt this point) r in
      extremes this = Some r ->
      u a =n= Fin 0 -> v a =n= Fin 0 ->
      0 < t ->
      speed a =n= Fin 0
      /\ ArrowGrid_sample transform hypot atan2 this
           (speedThreshold_of (Some (Fin t))) bbox i j = Ok None)
  /\ (forall (this : ArrowGrid) (opt : option num) (bbox : Extent)
             (i j : num) (r : Range),
      let point := samplePoint transform this bbox i j in
      let params := paramsAt this point in
      let a := arrowAt hypot atan2 this params r in
      extremes this = Some r ->
      u a =n= Fin 0 -> v a =n= Fin 0 ->
      opt = None \/ (exists t : Q, opt = Some (Fin t) /\ t == 0) ->
      checkExtent this (fst point) (snd point) = true ->
      isNaN (interpolateGridValue (fst (data this)) params)
      || isNaN (interpolateGridValue (snd (data this)) params) = false ->
      ArrowGrid_sample transform hypot atan2 this
        (speedThreshold_of opt) bbox i j = Ok (Some a))
  /\ (forall (fuel : nat) (this : ArrowGrid) (z x y : num) (r : Range)
             (points : list (num * num)),
      let bbox :=
        tileBBox (getOrigin z) (getResolution z) (tileW this) (tileH this)
          x y in
      extremes this = Some r ->
      samplePoints fuel (tileW this) (tileH this) (steps this) = Some points ->
      (forall ij : num * num,
          In ij points ->
          hasVector transform this bbox ij = true ->
          u (snd (vectorOf transform hypot atan2 this bbox r ij)) =n= Fin 0
          /\ v (snd (vectorOf transform hypot atan2 this bbox r ij)) =n= Fin 0) ->
      (forall t : Q,
          0 < t ->
          ArrowGrid_loadTile transform getOrigin getResolution hypot atan2
            fuel this (speedThreshold_of (Some (Fin t))) z x y
          = Some (Ok []))
      /\ (forall opt : option num,
             opt = None \/ (exists t : Q, opt = Some (Fin t) /\ t == 0) ->
             ArrowGrid_loadTile transform getOrigin getResolution hypot atan2
               fuel this (speedThreshold_of opt) z x y
             = Some (Ok (map (vectorOf transform hypot atan2 this bbox r)
                           (filter (hasVector transform this bbox) points)))))
  /\ (forall (this : ArrowGrid) (coordinate : num * num) (r : Range),
      let params :=
        paramsAt this (transform (fst coordinate) (snd coordinate)) in
      extremes this = Some r ->
      ArrowGrid_getVectorAtCoordinate transform hypot atan2 this coordinate
      = if isNaN (interpolateGridValue (fst (data this)) params)
           || isNaN (interpolateGridValue (snd (data this)) params)
        then Ok None
        else Ok (Some (arrowAt hypot atan2 this params r))).
Proof.
  split; [exact ArrowGrid_sample_emitted|].
  split; [exact ArrowGrid_sample_inside|].
  split; [|split; [|split]]; [| |exact zero_field_tile|].
  - intros this bbox i j r t point a Hr Hu Hv Ht.
    assert (Hs : speed a =n= Fin 0)
      by (apply zero_vector_speed; [reflexivity | exact Hu | exact Hv]).
    split; [exact Hs|].
    rewrite (speedThreshold_positive t Ht).
    destruct (checkExtent this (fst point) (snd point)) eqn:Hin.
    + destruct (isNaN (interpolateGridValue (fst (data this))
                         (paramsAt this point))
                || isNaN (interpolateGridValue (snd (data this))
                            (paramsAt this point)))%bool eqn:Hdata.
      * unfold ArrowGrid_sample. fold point. rewrite Hin. cbn [negb].
        fold (paramsAt this point). rewrite Hdata. reflexivity.
      * rewrite (ArrowGrid_sample_inside this (Fin t) bbox i j r Hr Hin Hdata).
        fold point. fold a. rewrite (lt_zero_speed _ t Hs).
        assert (E : Qle_bool t 0 = false).
        { destruct (Qle_bool t 0) eqn:E; [|reflexivity].
          apply Qle_bool_iff in E. lra. }
        rewrite E. reflexivity.
    + unfold ArrowGrid_sample. fold point. rewrite Hin. reflexivity.
  - intros this opt bbox i j r point params a Hr Hu Hv Hopt Hin Hdata.
    assert (Hs : speed a =n= Fin 0)
      by (apply zero_vector_speed; [reflexivity | exact Hu | exact Hv]).
    rewrite (speedThreshold_zero opt Hopt).
    rewrite (ArrowGrid_sample_inside this (of_Z 0) bbox i j r Hr Hin Hdata).
    fold point. fold params. fold a.
    unfold of_Z. rewrite (lt_zero_speed _ _ Hs). reflexivity.
  - intros this coordinate r params Hr.
    unfold ArrowGrid_getVectorAtCoordinate.
    fold (paramsAt this (transform (fst coordinate) (snd coordinate))).
    fold params. rewrite Hr.
    destruct (_ || _)%bool; reflexivity.
Qed.

End VectorRenderer.

Lemma vector_renderer_speed_and_angle_witness :
  let this :=
    exampleArrowGrid [of_Z 0] [of_Z 0] 1 1 (mkExtent 0%Z 0%Z 1%Z 1%Z)
      (Some (0%Z : num, 40%Z : num)) in
  let bbox := mkExtent 0%Z 0%Z 1%Z 1%Z in
  let angle0 := fun _ _ : num => of_Z 0 in
  ArrowGrid_sample pair hypotDown angle0 this
    (speedThreshold_of (Some (Fin 5))) bbox 0%Z 0%Z = Ok None
  /\ ArrowGrid_sample pair hypotDown angle0 this
       (speedThreshold_of None) bbox 0%Z 0%Z
     = Ok (Some (arrowAt hypotDown angle0 this
                   (paramsAt this (samplePoint pair this bbox 0%Z 0%Z))
                   (0%Z : num, 40%Z : num))).
Proof.
  intros this bbox angle0.
  destruct (vector_renderer_speed_and_angle pair
              (fun _ => (of_Z 0, of_Z 0)) (fun _ => of_Z 1)
              hypotDown angle0 hypotDown_zero) as [_ [_ [Hskip [Hkeep _]]]].
  split.
  - apply (Hskip this bbox 0%Z 0%Z (0%Z : num, 40%Z : num) 5).
    + reflexivity.
    + vm_compute. reflexivity.
    + vm_compute. reflexivity.
    + reflexivity.
  - apply (Hkeep this None bbox 0%Z 0%Z (0%Z : num, 40%Z : num)).
    + reflexivity.
    + vm_compute. reflexivity.
    + vm_compute. reflexivity.
    + left. reflexivity.
    + vm_compute. reflexivity.
    + vm_compute. reflexivity.
Defined.

(** ** Point queries outside the extent *)

Lemma get_valid (grid : Grid) (size : Z) (i : num) :
  validIndex size i -> finiteGrid size grid -> exists q : Q, get grid i = Fin q.
Proof.
  intros [z [-> Hz]] Hgrid. unfold get.
  rewrite index_of_of_Z by lia. apply Hgrid. lia.
Qed.

Lemma interpolate_finite (grid : Grid) (size : Z)
    (params : InterpolationParams) :
  validParams size params -> finiteGrid size grid ->
  exists q : Q, interpolateGridValue grid params = Fin q.
Proof.
  intros [H11 [H12 [H21 [H22 [[a [Ha _]] [b [Hb _]]]]]]] Hgrid.
  destruct (get_valid grid size _ H11 Hgrid) as [q11 E11].
  destruct (get_valid grid size _ H12 Hgrid) as [q12 E12].
  destruct (get_valid grid size _ H21 Hgrid) as [q21 E21].
  destruct (get_valid grid size _ H22 Hgrid) as [q22 E22].
  unfold interpolateGridValue. rewrite E11, E12, E21, E22, Ha, Hb.
  eexists. reflexivity.
Qed.

Lemma Qfloor_ge (x : Q) (n : Z) : inject_Z n <= x -> (n <= Qfloor x)%Z.
Proof.
  intros H. rewrite <- (Qfloor_Z n). apply Qfloor_resp_le. exact H.
Qed.

Lemma Qfloor_neg (x : Q) : x < 0 -> (Qfloor x <= -1)%Z.
Proof.
  intros H. pose proof (Qfloor_le x) as Hle.
  assert (Hlt : inject_Z (Qfloor x) < inject_Z 0)
    by (change (inject_Z 0) with 0; lra).
  rewrite <- Zlt_Qlt in Hlt. lia.
Qed.

Lemma Qceiling_nonpos (x : Q) : x <= 0 -> (Qceiling x <= 0)%Z.
Proof.
  intros H. rewrite <- (Qceiling_Z 0). apply Qceiling_resp_le. exact H.
Qed.

Lemma Qceiling_ge (x : Q) (n : Z) : inject_Z n <= x -> (n <= Qceiling x)%Z.
Proof.
  intros H. rewrite <- (Qceiling_Z n). apply Qceiling_resp_le. exact H.
Qed.

Lemma paramsOfCells_right_edge (w h : Z) (xc yc : Q) :
  (1 <= w)%Z -> (1 <= h)%Z -> inject_Z w <= xc ->
  inColumn w h (w - 1) (paramsOfCells w h xc yc).
Proof.
  intros Hw Hh Hx. apply Qfloor_ge in Hx.
  unfold inColumn, paramsOfCells; cbn [i11 i12 i21 i22].
  exists (Spec.clampTo 0 (h - 1) (h - 1 - Qfloor yc)),
         (Spec.clampTo 0 (h - 1) (h - 1 - Qceiling yc)).
  split; [apply clampTo_range; lia|]. split; [apply clampTo_range; lia|].
  replace (Spec.clampTo 0 (w - 1) (Qfloor xc)) with (w - 1)%Z
    by (unfold Spec.clampTo; lia).
  replace (Spec.clampTo 0 (w - 1) (Qfloor xc + 1)) with (w - 1)%Z
    by (unfold Spec.clampTo; lia).
  repeat split.
Qed.

Lemma paramsOfCells_left_edge (w h : Z) (xc yc : Q) :
  (1 <= w)%Z -> (1 <= h)%Z -> xc < 0 ->
  inColumn w h 0 (paramsOfCells w h xc yc).
Proof.
  intros Hw Hh Hx. apply Qfloor_neg in Hx.
  unfold inColumn, paramsOfCells; cbn [i11 i12 i21 i22].
  exists (Spec.clampTo 0 (h - 1) (h - 1 - Qfloor yc)),
         (Spec.clampTo 0 (h - 1) (h - 1 - Qceiling yc)).
  split; [apply clampTo_range; lia|]. split; [apply clampTo_range; lia|].
  replace (Spec.clampTo 0 (w - 1) (Qfloor xc)) with 0%Z
    by (unfold Spec.clampTo; lia).
  replace (Spec.clampTo 0 (w - 1) (Qfloor xc + 1)) with 0%Z
    by (unfold Spec.clampTo; lia).
  repeat split.
Qed.

Lemma paramsOfCells_top_edge (w h : Z) (xc yc : Q) :
  (1 <= w)%Z -> (1 <= h)%Z -> inject_Z h <= yc ->
  inRow w 0 (paramsOfCells w h xc yc).
Proof.
  intros Hw Hh Hy. pose proof (Qfloor_ge _ _ Hy) as Hf.
  pose proof (Qceiling_ge _ _ Hy) as Hc.
  unfold inRow, paramsOfCells; cbn [i11 i12 i21 i22].
  exists (Spec.clampTo 0 (w - 1) (Qfloor xc)),
         (Spec.clampTo 0 (w - 1) (Qfloor xc + 1)).
  split; [apply clampTo_range; lia|]. split; [apply clampTo_range; lia|].
  replace (Spec.clampTo 0 (h - 1) (h - 1 - Qfloor yc)) with 0%Z
    by (unfold Spec.clampTo; lia).
  replace (Spec.clampTo 0 (h - 1) (h - 1 - Qceiling yc)) with 0%Z
    by (unfold Spec.clampTo; lia).
  repeat split.
Qed.

Lemma paramsOfCells_bottom_edge (w h : Z) (xc yc : Q) :
  (1 <= w)%Z -> (1 <= h)%Z -> yc < 0 ->
  inRow w (h - 1) (paramsOfCells w h xc yc).
Proof.
  intros Hw Hh Hy. pose proof (Qfloor_neg _ Hy) as Hf.
  assert (Hc : (Qceiling yc <= 0)%Z) by (apply Qceiling_nonpos; lra).
  unfold inRow, paramsOfCells; cbn [i11 i12 i21 i22].
  exists (Spec.clampTo 0 (w - 1) (Qfloor xc)),
         (Spec.clampTo 0 (w - 1) (Qfloor xc + 1)).
  split; [apply clampTo_range; lia|]. split; [apply clampTo_range; lia|].
  replace (Spec.clampTo 0 (h - 1) (h - 1 - Qfloor yc)) with (h - 1)%Z
    by (unfold Spec.clampTo; lia).
  replace (Spec.clampTo 0 (h - 1) (h - 1 - Qceiling yc)) with (h - 1)%Z
    by (unfold Spec.clampTo; lia).
  repeat split.
Qed.

Lemma cellSize_pos (span : Q) (n : Z) :
  (1 <= n)%Z -> 0 <= span -> 0 < Spec.cellSize span n.
Proof.
  intros Hn Hspan. unfold Spec.cellSize.
  destruct (Qeq_bool span 0) eqn:E; [reflexivity|].
  apply Qeq_bool_neq in E.
  assert (Hn' : 0 < inject_Z n).
  { change 0 with (inject_Z 0). rewrite <- Zlt_Qlt. lia. }
  apply Qlt_shift_div_l; [exact Hn'|]. lra.
Qed.

Lemma cellSize_times (span : Q) (n : Z) :
  (1 <= n)%Z -> 0 < span -> inject_Z n * Spec.cellSize span n == span.
Proof.
  intros Hn Hspan. unfold Spec.cellSize.
  rewrite Qeq_bool_false by lra. field. apply inject_Z_nonzero. exact Hn.
Qed.

Lemma spanLon_nonwrapping (minLon maxLon : Q) :
  minLon <= maxLon -> Spec.spanLon minLon maxLon == maxLon - minLon.
Proof.
  intros H. unfold Spec.spanLon, Spec.wraps.
  apply Qle_bool_iff in H. rewrite H. cbn [negb].
  apply Qabs_pos. apply Qle_bool_iff in H. lra.
Qed.

Lemma lonAdj_nonwrapping (minLon maxLon lon : Q) :
  minLon <= maxLon -> Spec.lonAdj minLon maxLon lon = lon.
Proof.
  intros H. unfold Spec.lonAdj, Spec.wraps.
  apply Qle_bool_iff in H. rewrite H. reflexivity.
Qed.

Lemma xCell_east (w : Z) (minLon maxLon lon : Q) :
  (1 <= w)%Z -> minLon < maxLon -> maxLon <= lon ->
  inject_Z w <= Spec.xCell w minLon maxLon lon.
Proof.
  intros Hw Hext Hlon. unfold Spec.xCell, Spec.cellWidth.
  assert (Hle : minLon <= maxLon) by lra.
  rewrite (lonAdj_nonwrapping _ _ lon Hle).
  pose proof (spanLon_nonwrapping _ _ Hle) as Hspan.
  assert (Hpos : 0 < Spec.spanLon minLon maxLon) by lra.
  apply Qle_shift_div_l.
  - apply cellSize_pos; [exact Hw | lra].
  - rewrite (cellSize_times _ _ Hw Hpos). lra.
Qed.

Lemma xCell_west (w : Z) (minLon maxLon lon : Q) :
  (1 <= w)%Z -> minLon <= maxLon -> lon < minLon ->
  Spec.xCell w minLon maxLon lon < 0.
Proof.
  intros Hw Hle Hlon. unfold Spec.xCell, Spec.cellWidth.
  rewrite (lonAdj_nonwrapping _ _ lon Hle).
  pose proof (spanLon_nonwrapping _ _ Hle) as Hspan.
  apply Qlt_shift_div_r.
  - apply cellSize_pos; [exact Hw | lra].
  - lra.
Qed.

Lemma yCell_north (h : Z) (minLat maxLat lat : Q) :
  (1 <= h)%Z -> minLat < maxLat -> maxLat <= lat ->
  inject_Z h <= Spec.yCell h minLat maxLat lat.
Proof.
  intros Hh Hext Hlat. unfold Spec.yCell, Spec.cellHeight.
  assert (Hspan : Spec.spanLat minLat maxLat == maxLat - minLat)
    by (unfold Spec.spanLat; apply Qabs_pos; lra).
  assert (Hpos : 0 < Spec.spanLat minLat maxLat) by lra.
  apply Qle_shift_div_l.
  - apply cellSize_pos; [exact Hh | lra].
  - rewrite (cellSize_times _ _ Hh Hpos). lra.
Qed.

Lemma yCell_south (h : Z) (minLat maxLat lat : Q) :
  (1 <= h)%Z -> lat < minLat -> Spec.yCell h minLat maxLat lat < 0.
Proof.
  intros Hh Hlat. unfold Spec.yCell, Spec.cellHeight.
  apply Qlt_shift_div_r.
  - apply cellSize_pos; [exact Hh | apply Qabs_nonneg].
  - lra.
Qed.

Lemma paramsAt_finite {D E : Type} (this : BaseGridSource D E) (w h : Z)
    (minLon minLat maxLon maxLat lon lat : Q) :
  wellFormed this w h minLon minLat maxLon maxLat ->
  exists xc yc : Q,
    xc == Spec.xCell w minLon maxLon lon
    /\ yc == Spec.yCell h minLat maxLat lat
    /\ paramsAt this (Fin lon, Fin lat) = paramsOfCells w h xc yc.
Proof.
  intros [Ew [Eh [Ee [Hw Hh]]]].
  unfold paramsAt, coordinateCalculator. rewrite Ew, Eh, Ee. cbn [fst snd].
  apply calculator_finite; assumption.
Qed.

Lemma LabelGrid_mapChannels_values (ex : LabelExtremes)
    (params : InterpolationParams) (grids : list Grid) :
  forall k : nat,
    (forall i : nat, (i < List.length grids)%nat -> rangeOf ex (k + i) <> None) ->
    exists values : list num,
      LabelGrid_mapChannels ex params k grids = Ok values
      /\ forall (i : nat) (g : Grid),
           nth_error grids i = Some g ->
           exists r : Range,
             rangeOf ex (k + i) = Some r
             /\ nth_error values i
                = Some (if isNaN (interpolateGridValue g params) then NaN
                        else dequantize (interpolateGridValue g params) r).
Proof.
  induction grids as [|grid rest IH]; intros k Hcover.
  - exists []. split; [reflexivity|]. intros [|i] g H; discriminate H.
  - destruct (IH (S k)) as [more [Emore Hnth]].
    { intros i Hi. replace (S k + i)%nat with (k + S i)%nat by lia.
      apply Hcover. cbn [List.length]. lia. }
    destruct (rangeOf ex k) as [r|] eqn:Er.
    2:{ exfalso. apply (Hcover 0%nat); [cbn [List.length]; lia|].
        rewrite Nat.add_0_r. exact Er. }
    exists ((if isNaN (interpolateGridValue grid params) then NaN
             else dequantize (interpolateGridValue grid params) r) :: more).
    split.
    + cbn [LabelGrid_mapChannels]. rewrite Emore, Er.
      destruct (isNaN _); reflexivity.
    + intros [|i] g Hg.
      * cbn [nth_error] in Hg. injection Hg as <-.
        exists r. rewrite Nat.add_0_r. split; [exact Er | reflexivity].
      * cbn [nth_error] in Hg. destruct (Hnth i g Hg) as [r' [Er' Hv]].
        exists r'. replace (k + S i)%nat with (S k + i)%nat by lia.
        split; [exact Er' | exact Hv].
Qed.

Section PointQueries.

Variable transform : num -> num -> num * num.
Variable hypot : num -> num -> num.
Variable atan2 : num -> num -> num.


End PointQueries.


(** ** Spacing factor, strides and sample points *)

Lemma divisorIdx_of_Z (divisors : list num) (sf : Z) :
  divisorIdx divisors (Some (of_Z sf))
  = of_Z (indexZ (Z.of_nat (List.length divisors)) sf).
Proof.
  unfold divisorIdx, JS.length, nullish, indexZ.
  rewrite !sub_of_Z, min_of_Z, max_of_Z. reflexivity.
Qed.

Lemma indexZ_range (n sf : Z) : (1 <= n)%Z -> (0 <= indexZ n sf <= n - 1)%Z.
Proof. unfold indexZ. lia. Qed.

Lemma get_tableOf (ds : list Z) (k : Z) :
  (0 <= k < Z.of_nat (List.length ds))%Z ->
  get (tableOf ds) (of_Z k) = of_Z (nth (Z.to_nat k) ds 0%Z).
Proof.
  intros Hk. unfold get. rewrite index_of_of_Z by lia.
  unfold tableOf.
  rewrite (nth_indep _ NaN (of_Z 0))
    by (rewrite length_map; lia).
  apply (map_nth of_Z).
Qed.

Lemma round_div_of_Z (tile d : Z) :
  (1 <= d)%Z -> round (of_Z tile / of_Z d)%js = of_Z (stepZ tile d).
Proof.
  intros Hd. unfold of_Z at 1 2.
  rewrite div_Fin by (apply inject_Z_nonzero; exact Hd). reflexivity.
Qed.

(** The strides a source derives from an integer tile size, an integer
    table and an integer spacing factor. *)
Lemma gridSteps_of_Z (tW tH : Z) (ds : list Z) (sf : Z) :
  ds <> [] -> firstLargest ds ->
  let d := nth (Z.to_nat (indexZ (Z.of_nat (List.length ds)) sf)) ds 0%Z in
  (1 <= d <= nth 0 ds 0)%Z
  /\ gridStepX (gridSteps (of_Z tW) (of_Z tH) (tableOf ds) (Some (of_Z sf)))
     = of_Z (stepZ tW d)
  /\ gridStepY (gridSteps (of_Z tW) (of_Z tH) (tableOf ds) (Some (of_Z sf)))
     = of_Z (stepZ tH d).
Proof.
  intros Hne Hfirst d.
  assert (Hlen : (1 <= Z.of_nat (List.length ds))%Z)
    by (destruct ds; [contradiction | cbn [List.length]; lia]).
  pose proof (indexZ_range _ sf Hlen) as Hidx.
  assert (Hd : (1 <= d <= nth 0 ds 0)%Z).
  { apply Hfirst. apply nth_In. lia. }
  split; [exact Hd|].
  unfold gridSteps; cbn [gridStepX gridStepY].
  rewrite divisorIdx_of_Z.
  replace (List.length (tableOf ds)) with (List.length ds)
    by (symmetry; apply length_map).
  rewrite get_tableOf by lia. fold d.
  rewrite !round_div_of_Z by lia. split; reflexivity.
Qed.

Lemma stepZ_antitone (tile d1 d2 : Z) :
  (0 <= tile)%Z -> (1 <= d2 <= d1)%Z -> (stepZ tile d1 <= stepZ tile d2)%Z.
Proof.
  intros Ht Hd. unfold stepZ. apply Qfloor_resp_le.
  assert (H1 : 0 < inject_Z d1)
    by (change 0 with (inject_Z 0); rewrite <- Zlt_Qlt; lia).
  assert (H2 : 0 < inject_Z d2)
    by (change 0 with (inject_Z 0); rewrite <- Zlt_Qlt; lia).
  assert (H12 : inject_Z d2 <= inject_Z d1) by (rewrite <- Zle_Qle; lia).
  assert (H0 : 0 <= inject_Z tile)
    by (change 0 with (inject_Z 0); rewrite <- Zle_Qle; lia).
  apply Qplus_le_l.
  apply Qle_shift_div_l; [exact H2|].
  setoid_replace (inject_Z tile / inject_Z d1 * inject_Z d2)
    with (inject_Z d2 / inject_Z d1 * inject_Z tile)
    by (field; lra).
  assert (Hq : inject_Z d2 / inject_Z d1 <= 1)
    by (apply Qle_shift_div_r; [exact H1 | lra]).
  setoid_replace (inject_Z tile) with (1 * inject_Z tile) at 2 by ring.
  apply Qmult_le_compat_r; [exact Hq | exact H0].
Qed.

Lemma countZ_antitone (tile s1 s2 : Z) :
  (1 <= tile)%Z -> (1 <= s1 <= s2)%Z -> (countZ tile s2 <= countZ tile s1)%Z.
Proof.
  intros Ht Hs. unfold countZ.
  assert ((tile - 1) / s2 <= (tile - 1) / s1)%Z
    by (apply Z.div_le_compat_l; lia).
  lia.
Qed.

Lemma countZ_bounds (tile step : Z) :
  (1 <= tile)%Z -> (1 <= step)%Z -> (1 <= countZ tile step <= tile)%Z.
Proof.
  intros Ht Hs. unfold countZ.
  assert (0 <= (tile - 1) / step)%Z by (apply Z.div_pos; lia).
  assert ((tile - 1) / step <= (tile - 1) / 1)%Z
    by (apply Z.div_le_compat_l; lia).
  rewrite Z.div_1_r in *. lia.
Qed.

Lemma countZ_step_1 (tile : Z) : countZ tile 1 = tile.
Proof. unfold countZ. rewrite Z.div_1_r. lia. Qed.

Lemma countZ_whole_tile (tile step : Z) :
  (1 <= tile <= step)%Z -> countZ tile step = 1%Z.
Proof. intros H. unfold countZ. rewrite Z.div_small by lia. reflexivity. Qed.

(** The stride loop ends, and takes as many values as strides start inside
    the tile. *)
Lemma loopFrom_count (tile step : Z) :
  (1 <= step)%Z ->
  forall (fuel : nat) (i : Z),
    (Z.max 0 (tile - i) < Z.of_nat fuel)%Z ->
    exists l : list num,
      loopFrom fuel (of_Z i) (of_Z tile) (of_Z step) = Some l
      /\ Z.of_nat (List.length l)
         = if (i <? tile)%Z then ((tile - 1 - i) / step + 1)%Z else 0%Z.
Proof.
  intros Hstep. induction fuel as [|fuel IH]; intros i Hfuel; [lia|].
  cbn [loopFrom]. rewrite lt_of_Z.
  destruct (Z.ltb_spec i tile) as [Hlt | Hge].
  - rewrite add_of_Z.
    destruct (IH (i + step)%Z) as [l [El Hl]]; [lia|].
    rewrite El. exists (of_Z i :: l). split; [reflexivity|].
    cbn [List.length]. rewrite Nat2Z.inj_succ, Hl.
    destruct (Z.ltb_spec (i + step) tile) as [Hnext | Hlast].
    + replace (tile - 1 - i)%Z with (tile - 1 - (i + step) + 1 * step)%Z
        by lia.
      rewrite Z.div_add by lia. lia.
    + rewrite (Z.div_small (tile - 1 - i) step) by lia. lia.
  - exists []. split; reflexivity.
Qed.

Lemma loopIndices_count (fuel : nat) (tile step : Z) :
  (1 <= tile)%Z -> (1 <= step)%Z -> (tile < Z.of_nat fuel)%Z ->
  exists l : list num,
    loopIndices fuel (of_Z tile) (of_Z step) = Some l
    /\ Z.of_nat (List.length l) = countZ tile step.
Proof.
  intros Ht Hs Hfuel. unfold loopIndices.
  destruct (loopFrom_count tile step Hs fuel 0) as [l [El Hl]]; [lia|].
  exists l. split; [exact El|]. rewrite Hl.
  destruct (Z.ltb_spec 0 tile); [|lia].
  unfold countZ. rewrite Z.sub_0_r. reflexivity.
Qed.

(** A stride of 0 never leaves the loop: no amount of fuel is enough. *)
Lemma loopFrom_zero_step (tile : Z) :
  (1 <= tile)%Z ->
  forall fuel : nat, loopFrom fuel (of_Z 0) (of_Z tile) (of_Z 0) = None.
Proof.
  intros Ht. induction fuel as [|fuel IH]; [reflexivity|].
  cbn [loopFrom]. rewrite lt_of_Z.
  destruct (Z.ltb_spec 0 tile); [|lia].
  rewrite add_of_Z. cbn [Z.add]. rewrite IH. reflexivity.
Qed.

Lemma length_pairs (cols rows : list num) :
  List.length (flat_map (fun i => map (fun j => (i, j)) rows) cols)
  = (List.length cols * List.length rows)%nat.
Proof.
  induction cols as [|c cols IH]; [reflexivity|].
  cbn [flat_map]. rewrite length_app, length_map, IH. reflexivity.
Qed.

Lemma sampleCount_of_Z (fuel : nat) (tW tH : Z) (ds : list Z) (sf : Z) :
  ds <> [] -> firstLargest ds ->
  (1 <= tW < Z.of_nat fuel)%Z -> (1 <= tH < Z.of_nat fuel)%Z ->
  let d := nth (Z.to_nat (indexZ (Z.of_nat (List.length ds)) sf)) ds 0%Z in
  (1 <= stepZ tW d)%Z -> (1 <= stepZ tH d)%Z ->
  exists n : nat,
    sampleCount fuel (of_Z tW) (of_Z tH) (tableOf ds) (Some (of_Z sf))
    = Some n
    /\ Z.of_nat n
       = (countZ tW (stepZ tW d) * countZ tH (stepZ tH d))%Z.
Proof.
  intros Hne Hfirst HtW HtH d HsX HsY.
  destruct (gridSteps_of_Z tW tH ds sf Hne Hfirst) as [_ [EX EY]].
  fold d in EX, EY.
  unfold sampleCount, samplePoints. rewrite EX, EY.
  destruct (loopIndices_count fuel tW (stepZ tW d)) as [cols [Ec Hc]];
    [lia | exact HsX | lia |].
  destruct (loopIndices_count fuel tH (stepZ tH d)) as [rows [Er Hr]];
    [lia | exact HsY | lia |].
  rewrite Ec, Er. cbn [option_map]. eexists. split; [reflexivity|].
  rewrite length_pairs, Nat2Z.inj_mul, Hc, Hr. reflexivity.
Qed.

Lemma stepZ_divisor_1 (tile : Z) : stepZ tile 1 = tile.
Proof.
  unfold stepZ.
  setoid_replace (inject_Z tile / inject_Z 1 + (1 # 2))
    with (inject_Z tile + (1 # 2)) by (change (inject_Z 1) with 1; field).
  assert (H : (tile <= Qfloor (inject_Z tile + (1 # 2)))%Z).
  { apply Qfloor_ge. lra. }
  assert (H' : (Qfloor (inject_Z tile + (1 # 2)) < tile + 1)%Z).
  { pose proof (Qfloor_le (inject_Z tile + (1 # 2))) as Hf.
    rewrite Zlt_Qlt, inject_Z_plus. change (inject_Z 1) with 1. lra. }
  lia.
Qed.

Lemma firstLargest_raster : firstLargest [256; 128; 64; 32; 16]%Z.
Proof.
  intros d Hd. cbn [In nth] in *.
  repeat (destruct Hd as [<- | Hd]; [lia|]). contradiction.
Qed.

Lemma firstLargest_glyph : firstLargest [16; 8; 4; 2; 1]%Z.
Proof.
  intros d Hd. cbn [In nth] in *.
  repeat (destruct Hd as [<- | Hd]; [lia|]). contradiction.
Qed.

(** C4, as stated, fails twice.  The raster source does not use the table
    {16,8,4,2,1}; and a divisor of 1 (label source, spacing factor 5,
    256-pixel tile) makes the stride the whole tile, so that the tile has one
    sample point, not 256 * 256. *)
Lemma spacing_claim_counterexample :
  ColorGrid_divisors <> tableOf [16; 8; 4; 2; 1]%Z
  /\ get LabelGrid_divisors
       (divisorIdx LabelGrid_divisors (LabelGrid_spacingFactor (Some (of_Z 5))))
     = of_Z 1
  /\ gridStepX (gridSteps 256%Z 256%Z LabelGrid_divisors
                  (LabelGrid_spacingFactor (Some (of_Z 5)))) = of_Z 256
  /\ option_map Z.of_nat
       (sampleCount 257 256%Z 256%Z LabelGrid_divisors
          (LabelGrid_spacingFactor (Some (of_Z 5)))) = Some 1%Z
  /\ (1 <> 256 * 256)%Z.
Proof.
  split; [intros H; discriminate H|].
  split; [vm_compute; reflexivity|].
  split; [vm_compute; reflexivity|].
  split; [vm_compute; reflexivity|]. lia.
Qed.

(** C4, amended.  The raster source uses the table {256,128,64,32,16}, the
    vector and label sources {16,8,4,2,1}.  An integer spacing factor [sf]
    selects entry [sf - 1], clamped to the first entry below and to the last
    entry above, so the table is never read out of range.  On a tile of
    tileW by tileH pixels whose strides are at least 1, the sample loop ends
    with ceil(tileW/gridStepX) * ceil(tileH/gridStepY) points; spacing factor
    1 selects the first, largest divisor, hence the smallest stride, and no
    other spacing factor gives more points.  There are tileW*tileH points
    when the stride is 1 (raster source, 256-pixel tile, spacing factor 1:
    divisor 256).  For every table, spacing factor and tile (of sides below
    2^52) the strides are round(tileW / divisor) and round(tileH / divisor)
    for the selected divisor; when that divisor is 1 the strides are the
    whole tile and the tile has a single sample point. *)
Theorem spacing_factor_selection :
  (ColorGrid_divisors = tableOf [256; 128; 64; 32; 16]%Z
   /\ ArrowGrid_divisors = tableOf [16; 8; 4; 2; 1]%Z
   /\ LabelGrid_divisors = tableOf [16; 8; 4; 2; 1]%Z
   /\ firstLargest [256; 128; 64; 32; 16]%Z
   /\ firstLargest [16; 8; 4; 2; 1]%Z)
  /\ (forall (divisors : list num) (sf : Z),
      divisors <> [] ->
      let n := Z.of_nat (List.length divisors) in
      exists k : Z,
        divisorIdx divisors (Some (of_Z sf)) = of_Z k
        /\ (0 <= k <= n - 1)%Z
        /\ ((sf <= 1)%Z -> k = 0%Z)
        /\ ((1 <= sf <= n)%Z -> k = (sf - 1)%Z)
        /\ ((n <= sf)%Z -> k = (n - 1)%Z))
  /\ (forall (fuel : nat) (tW tH : Z) (ds : list Z) (sf : Z),
      ds <> [] -> firstLargest ds ->
      (1 <= tW < Z.of_nat fuel)%Z -> (1 <= tH < Z.of_nat fuel)%Z ->
      let finest := nth 0 ds 0%Z in
      (1 <= stepZ tW finest)%Z -> (1 <= stepZ tH finest)%Z ->
      exists n1 n : nat,
        sampleCount fuel (of_Z tW) (of_Z tH) (tableOf ds) (Some (of_Z 1))
        = Some n1
        /\ sampleCount fuel (of_Z tW) (of_Z tH) (tableOf ds) (Some (of_Z sf))
           = Some n
        /\ Z.of_nat n1
           = (countZ tW (stepZ tW finest) * countZ tH (stepZ tH finest))%Z
        /\ (n <= n1)%nat
        /\ (Z.of_nat n1 <= tW * tH)%Z
        /\ (stepZ tW finest = 1%Z -> stepZ tH finest = 1%Z ->
            Z.of_nat n1 = (tW * tH)%Z))
  /\ option_map Z.of_nat
       (sampleCount 257 256%Z 256%Z ColorGrid_divisors
          (ColorGrid_spacingFactor (Some (of_Z 1)))) = Some (256 * 256)%Z
  /\ option_map Z.of_nat
       (sampleCount 257 256%Z 256%Z LabelGrid_divisors
          (LabelGrid_spacingFactor (Some (of_Z 5)))) = Some 1%Z
  /\ (forall (tW tH : Z) (ds : list Z) (sf : Z),
      ds <> [] -> firstLargest ds ->
      (0 <= tW < 2 ^ 52)%Z -> (0 <= tH < 2 ^ 52)%Z ->
      let d := nth (Z.to_nat (indexZ (Z.of_nat (List.length ds)) sf)) ds 0%Z in
      let s := gridSteps (of_Z tW) (of_Z tH) (tableOf ds) (Some (of_Z sf)) in
      get (tableOf ds) (divisorIdx (tableOf ds) (Some (of_Z sf))) = of_Z d
      /\ gridStepX s = round (of_Z tW / of_Z d)%js
      /\ gridStepY s = round (of_Z tH / of_Z d)%js
      /\ gridStepX s = of_Z (stepZ tW d)
      /\ gridStepY s = of_Z (stepZ tH d))
  /\ (forall (fuel : nat) (tW tH : Z) (ds : list Z) (sf : Z),
      ds <> [] -> firstLargest ds ->
      (1 <= tW < Z.of_nat fuel)%Z -> (1 <= tH < Z.of_nat fuel)%Z ->
      nth (Z.to_nat (indexZ (Z.of_nat (List.length ds)) sf)) ds 0%Z = 1%Z ->
      let s := gridSteps (of_Z tW) (of_Z tH) (tableOf ds) (Some (of_Z sf)) in
      gridStepX s = of_Z tW /\ gridStepY s = of_Z tH
      /\ sampleCount fuel (of_Z tW) (of_Z tH) (tableOf ds) (Some (of_Z sf))
         = Some 1%nat).
Proof.
  split; [|split; [|split; [|split; [|split; [|split]]]]].
  - split; [reflexivity|]. split; [reflexivity|]. split; [reflexivity|].
    split; [apply firstLargest_raster | apply firstLargest_glyph].
  - intros divisors sf Hne n.
    assert (Hn : (1 <= n)%Z)
      by (unfold n; destruct divisors; [contradiction|cbn [List.length]; lia]).
    exists (indexZ n sf). split; [apply divisorIdx_of_Z|].
    unfold indexZ. repeat split; lia.
  - intros fuel tW tH ds sf Hne Hfirst HtW HtH finest HsX HsY.
    assert (Hlen : (1 <= Z.of_nat (List.length ds))%Z)
      by (destruct ds; [contradiction | cbn [List.length]; lia]).
    set (d := nth (Z.to_nat (indexZ (Z.of_nat (List.length ds)) sf)) ds 0%Z).
    assert (Hd : (1 <= d <= finest)%Z).
    { apply Hfirst. apply nth_In.
      pose proof (indexZ_range _ sf Hlen). lia. }
    assert (E1 : nth (Z.to_nat (indexZ (Z.of_nat (List.length ds)) 1)) ds 0%Z
                 = finest).
    { unfold indexZ. replace (Z.max 0 (Z.min _ (1 - 1))) with 0%Z by lia.
      reflexivity. }
    pose proof (stepZ_antitone tW finest d) as MX.
    pose proof (stepZ_antitone tH finest d) as MY.
    destruct (sampleCount_of_Z fuel tW tH ds 1 Hne Hfirst HtW HtH)
      as [n1 [En1 Hn1]]; [rewrite E1; exact HsX | rewrite E1; exact HsY |].
    rewrite E1 in Hn1.
    destruct (sampleCount_of_Z fuel tW tH ds sf Hne Hfirst HtW HtH)
      as [n [En Hn]]; [fold d; lia | fold d; lia |].
    fold d in Hn.
    exists n1, n. split; [exact En1|]. split; [exact En|].
    split; [exact Hn1|].
    pose proof (countZ_bounds tW (stepZ tW finest)) as BX.
    pose proof (countZ_bounds tH (stepZ tH finest)) as BY.
    pose proof (countZ_bounds tW (stepZ tW d)) as BXd.
    pose proof (countZ_bounds tH (stepZ tH d)) as BYd.
    pose proof (countZ_antitone tW (stepZ tW finest) (stepZ tW d)) as AX.
    pose proof (countZ_antitone tH (stepZ tH finest) (stepZ tH d)) as AY.
    split; [|split].
    + apply Nat2Z.inj_le. rewrite Hn, Hn1. nia.
    + rewrite Hn1. nia.
    + intros EX EY. rewrite Hn1, EX, EY, !countZ_step_1. reflexivity.
  - vm_compute. reflexivity.
  - vm_compute. reflexivity.
  - intros tW tH ds sf Hne Hfirst _ _ d s.
    destruct (gridSteps_of_Z tW tH ds sf Hne Hfirst) as [Hd [EX EY]].
    fold d in Hd, EX, EY. fold s in EX, EY.
    assert (Hlen : (1 <= Z.of_nat (List.length ds))%Z)
      by (destruct ds; [contradiction | cbn [List.length]; lia]).
    pose proof (indexZ_range _ sf Hlen) as Hidx.
    split.
    { rewrite divisorIdx_of_Z.
      replace (List.length (tableOf ds)) with (List.length ds)
        by (symmetry; apply length_map).
      rewrite get_tableOf by lia. reflexivity. }
    rewrite !round_div_of_Z by lia.
    split; [exact EX|]. split; [exact EY|]. split; [exact EX | exact EY].
  - intros fuel tW tH ds sf Hne Hfirst HtW HtH Hd s.
    destruct (gridSteps_of_Z tW tH ds sf Hne Hfirst) as [_ [EX EY]].
    rewrite Hd, stepZ_divisor_1 in EX, EY. fold s in EX, EY.
    split; [exact EX|]. split; [exact EY|].
    destruct (sampleCount_of_Z fuel tW tH ds sf Hne Hfirst HtW HtH)
      as [n [En Hn]];
      [rewrite Hd, stepZ_divisor_1; lia | rewrite Hd, stepZ_divisor_1; lia |].
    rewrite Hd, !stepZ_divisor_1, !countZ_whole_tile in Hn by lia.
    rewrite En. f_equal. lia.
Qed.

Lemma spacing_factor_selection_witness :
  exists n1 n : nat,
    sampleCount 300 256%Z 256%Z LabelGrid_divisors (Some (of_Z 1)) = Some n1
    /\ sampleCount 300 256%Z 256%Z LabelGrid_divisors (Some (of_Z 3)) = Some n
    /\ (n <= n1)%nat.
Proof.
  destruct spacing_factor_selection as [_ [_ [Hmax _]]].
  destruct (Hmax 300%nat 256%Z 256%Z [16; 8; 4; 2; 1]%Z 3%Z)
    as [n1 [n [E1 [E [_ [Hle _]]]]]].
  - intros H; discriminate H.
  - apply firstLargest_glyph.
  - lia.
  - lia.
  - vm_compute. intros H; discriminate H.
  - vm_compute. intros H; discriminate H.
  - exists n1, n. split; [exact E1|]. split; [exact E|exact Hle].
Defined.

(* ------------------------------------------------------------------ *)
(** * Further properties of the code *)

(** ** The blend of four defined neighbors *)

Lemma interpolate_Fin (grid : Grid) (params : InterpolationParams)
    (q11 q12 q21 q22 a b : Q) :
  get grid (i11 params) = Fin q11 ->
  get grid (i12 params) = Fin q12 ->
  get grid (i21 params) = Fin q21 ->
  get grid (i22 params) = Fin q22 ->
  rx params = Fin a -> ry params = Fin b ->
  exists r : Q,
    interpolateGridValue grid params = Fin r
    /\ r == (1 - b) * ((1 - a) * q11 + a * q21)
            + b * ((1 - a) * q12 + a * q22).
Proof.
  intros H11 H12 H21 H22 Ha Hb.
  unfold interpolateGridValue. rewrite H11, H12, H21, H22, Ha, Hb.
  cbn [sub add mul neg of_Z]. eexists. split; [reflexivity|].
  change (inject_Z 1) with 1. ring.
Qed.

(** ** [clamp], [quantize] and [dequantize] on their ranges *)

Lemma min_Fin (p q : Q) :
  exists m : Q, min (Fin p) (Fin q) = Fin m
                /\ m <= p /\ m <= q /\ (m == p \/ m == q).
Proof.
  unfold min, lt. destruct (Qle_bool p q) eqn:E; cbn [negb].
  - apply Qle_bool_iff in E. exists p. repeat split; lra.
  - assert (q < p).
    { apply Qnot_le_lt. intros H. apply Qle_bool_iff in H. congruence. }
    exists q. repeat split; lra.
Qed.

Lemma max_Fin (p q : Q) :
  exists m : Q, max (Fin p) (Fin q) = Fin m
                /\ p <= m /\ q <= m /\ (m == p \/ m == q).
Proof.
  unfold max, lt. destruct (Qle_bool q p) eqn:E; cbn [negb].
  - apply Qle_bool_iff in E. exists p. repeat split; lra.
  - assert (p < q).
    { apply Qnot_le_lt. intros H. apply Qle_bool_iff in H. congruence. }
    exists q. repeat split; lra.
Qed.

(** X3.  [clamp] on finite numbers: with lo <= hi the result lies in
    [lo, hi], is the value itself when that lies in the range, and is the
    nearer bound otherwise; with hi < lo the result is lo whatever the value;
    a NaN value gives NaN. *)
Theorem clamp_range (value lo hi : Q) :
  (lo <= hi ->
   exists c : Q,
     clamp (Fin value) (Fin lo) (Fin hi) = Fin c
     /\ lo <= c /\ c <= hi
     /\ (lo <= value -> value <= hi -> c == value)
     /\ (value <= lo -> c == lo)
     /\ (hi <= value -> c == hi))
  /\ (hi < lo -> clamp (Fin value) (Fin lo) (Fin hi) =n= Fin lo)
  /\ (forall lo' hi' : num, clamp NaN lo' hi' = NaN).
Proof.
  unfold clamp. split; [|split].
  - intros Hle.
    destruct (min_Fin hi value) as [m [Em [Hm1 [Hm2 Hm]]]].
    rewrite Em.
    destruct (max_Fin lo m) as [c [Ec [Hc1 [Hc2 Hc]]]].
    rewrite Ec. exists c. split; [reflexivity|].
    split; [lra|].
    split; [destruct Hc as [Hc | Hc]; destruct Hm as [Hm | Hm]; lra|].
    split; [|split]; intros;
      destruct Hc as [Hc | Hc]; destruct Hm as [Hm | Hm]; lra.
  - intros Hlt.
    destruct (min_Fin hi value) as [m [Em [Hm1 [Hm2 Hm]]]].
    rewrite Em.
    destruct (max_Fin lo m) as [c [Ec [Hc1 [Hc2 Hc]]]].
    rewrite Ec. cbn [num_eq]. destruct Hc as [Hc | Hc]; lra.
  - intros lo' hi'. destruct hi'; destruct lo'; reflexivity.
Qed.

Lemma clamp_range_witness :
  exists c : Q,
    clamp (Fin 7) (Fin 0) (Fin 3) = Fin c /\ 0 <= c /\ c <= 3.
Proof.
  destruct (clamp_range 7 0 3) as [H _].
  destruct H as [c [Ec [H0 [H3 _]]]]; [unfold Qle; simpl; lia|].
  exists c. split; [exact Ec|]. split; assumption.
Defined.



(** ** Extent containment and NaN *)

Lemma le_NaN_r (a : num) : (a <=? NaN)%js = false.
Proof. destruct a; reflexivity. Qed.

Lemma lt_NaN_r (a : num) : (a <? NaN)%js = false.
Proof. destruct a; reflexivity. Qed.

(** X7.  A coordinate with a NaN component lies in no extent, and an extent
    with a NaN bound contains no coordinate: every comparison with NaN is
    false, in the wrapping and in the plain branch alike. *)
Theorem checkExtent_rejects_NaN (extent : Extent) (lon lat : num) :
  isNaN lon || isNaN lat
  || isNaN (e0 extent) || isNaN (e1 extent)
  || isNaN (e2 extent) || isNaN (e3 extent) = true ->
  createCheckExtentFunc extent lon lat = false.
Proof.
  intros H. unfold createCheckExtentFunc.
  destruct extent as [minX minY maxX maxY]; cbn [e0 e1 e2 e3] in *.
  rewrite !orb_true_iff in H.
  destruct H as [[[[[H | H] | H] | H] | H] | H];
    apply isNaN_true in H; subst; unfold ge;
    rewrite ?le_NaN_r, ?lt_NaN_r; cbn [le lt];
    repeat match goal with
      | |- context [if ?c then _ else _] => destruct c
      end;
    rewrite ?andb_false_r, ?le_NaN_r; cbn [andb orb];
    rewrite ?andb_false_r; try reflexivity.
Qed.

Lemma checkExtent_rejects_NaN_witness :
  createCheckExtentFunc (mkExtent 170%Z (-10)%Z (-170)%Z 10%Z) NaN 0%Z
  = false.
Proof.
  apply (checkExtent_rejects_NaN (mkExtent 170%Z (-10)%Z (-170)%Z 10%Z)
           NaN 0%Z).
  reflexivity.
Defined.

(** ** The four neighbors of a coordinate *)

Lemma Qceiling_le_floor_succ (x : Q) : (Qceiling x <= Qfloor x + 1)%Z.
Proof.
  pose proof (Qceiling_lt x) as Hc. pose proof (Qlt_floor x) as Hf.
  assert (H : inject_Z (Qceiling x - 1) < inject_Z (Qfloor x + 1))
    by (eapply Qlt_trans; eassumption).
  rewrite <- Zlt_Qlt in H. lia.
Qed.

Lemma Qfloor_le_ceiling (x : Q) : (Qfloor x <= Qceiling x)%Z.
Proof. rewrite Zle_Qle. apply Qle_floor_ceiling. Qed.



(** ** The raster source over a byte buffer *)

Lemma boundedGrid_finite (size : Z) (lo hi : Q) (grid : Grid) :
  boundedGrid size lo hi grid -> finiteGrid size grid.
Proof.
  intros H n Hn. destruct (H n Hn) as [q [E _]]. exists q. exact E.
Qed.

Lemma get_bounded (grid : Grid) (size : Z) (lo hi : Q) (i : num) :
  validIndex size i -> boundedGrid size lo hi grid ->
  exists q : Q, get grid i = Fin q /\ lo <= q /\ q <= hi.
Proof.
  intros [z [-> Hz]] Hgrid. unfold get.
  rewrite index_of_of_Z by lia. apply Hgrid. lia.
Qed.

Lemma interpolate_bounded (grid : Grid) (size : Z) (lo hi : Q)
    (params : InterpolationParams) :
  validParams size params -> boundedGrid size lo hi grid ->
  exists r : Q,
    interpolateGridValue grid params = Fin r /\ lo <= r /\ r <= hi.
Proof.
  intros [V11 [V12 [V21 [V22 [[a [Ea [Ha0 Ha1]]] [b [Eb [Hb0 Hb1]]]]]]]] Hgrid.
  destruct (get_bounded grid _ _ _ _ V11 Hgrid) as [q11 [E11 [L11 U11]]].
  destruct (get_bounded grid _ _ _ _ V12 Hgrid) as [q12 [E12 [L12 U12]]].
  destruct (get_bounded grid _ _ _ _ V21 Hgrid) as [q21 [E21 [L21 U21]]].
  destruct (get_bounded grid _ _ _ _ V22 Hgrid) as [q22 [E22 [L22 U22]]].
  destruct (interpolate_Fin grid params _ _ _ _ _ _ E11 E12 E21 E22 Ea Eb)
    as [r [Er Hr]].
  exists r. split; [exact Er|]. rewrite Hr.
  assert (lo <= (1 - a) * q11 + a * q21 <= hi) by (split; nra).
  assert (lo <= (1 - a) * q12 + a * q22 <= hi) by (split; nra).
  split; nra.
Qed.

Lemma round_byte (r : Q) :
  0 <= r -> r <= 255 ->
  exists n : Z, round (Fin r) = of_Z n /\ (0 <= n <= 255)%Z.
Proof.
  intros H0 H255. exists (Qfloor (r + (1 # 2))). split; [reflexivity|].
  split.
  - apply (Qfloor_ge _ 0). change (inject_Z 0) with 0. lra.
  - assert (H : inject_Z (Qfloor (r + (1 # 2))) < inject_Z 256).
    { eapply Qle_lt_trans; [apply Qfloor_le|].
      change (inject_Z 256) with 256. lra. }
    rewrite <- Zlt_Qlt in H. lia.
Qed.

Section RasterBytes.

Variable transform : num -> num -> num * num.


End RasterBytes.


(** ** Sources without a value range *)

Lemma forEachSample_throws {A : Type}
    (body : num -> num -> js_result (option A))
    (points : list (num * num)) (ij : num * num) :
  In ij points -> body (fst ij) (snd ij) = TypeError ->
  forEachSample body points = TypeError.
Proof.
  induction points as [|[i j] rest IH]; intros Hin Hb; [contradiction|].
  cbn [forEachSample]. destruct Hin as [E | Hin].
  - subst ij. cbn [fst snd] in Hb. rewrite Hb. reflexivity.
  - rewrite (IH Hin Hb). destruct (body i j); reflexivity.
Qed.

Section NoExtremes.

Variable transform : num -> num -> num * num.
Variable getOrigin : num -> num * num.
Variable getResolution : num -> num.
Variable hypot : num -> num -> num.
Variable atan2 : num -> num -> num.

(** X12.  A vector source constructed without [extremes] cannot render
    data: a sample inside the extent with both channels defined throws a
    TypeError (reading the undefined range), so does every tile that holds
    such a sample, and so does the point query wherever both channels are
    defined.  Samples outside the extent or without data are still skipped
    quietly. *)
Theorem ArrowGrid_without_extremes_throws (this : ArrowGrid) :
  extremes this = None ->
  (forall (threshold : num) (bbox : Extent) (ij : num * num),
      ArrowGrid_sample transform hypot atan2 this threshold bbox
        (fst ij) (snd ij)
      = if hasVector transform this bbox ij then TypeError else Ok None)
  /\ (forall (fuel : nat) (threshold z x y : num)
             (points : list (num * num)),
      samplePoints fuel (tileW this) (tileH this) (steps this) = Some points ->
      ArrowGrid_loadTile transform getOrigin getResolution hypot atan2
        fuel this threshold z x y
      = Some (if existsb
                   (hasVector transform this
                      (tileBBox (getOrigin z) (getResolution z)
                         (tileW this) (tileH this) x y)) points
              then TypeError else Ok []))
  /\ (forall coordinate : num * num,
      let params :=
        paramsAt this (transform (fst coordinate) (snd coordinate)) in
      ArrowGrid_getVectorAtCoordinate transform hypot atan2 this coordinate
      = if isNaN (interpolateGridValue (fst (data this)) params)
           || isNaN (interpolateGridValue (snd (data this)) params)
        then Ok None else TypeError).
Proof.
  intros Hex.
  assert (Hsample : forall threshold bbox ij,
    ArrowGrid_sample transform hypot atan2 this threshold bbox
      (fst ij) (snd ij)
    = if hasVector transform this bbox ij then TypeError else Ok None).
  { intros threshold bbox ij. unfold ArrowGrid_sample, hasVector, paramsAt.
    rewrite Hex.
    destruct (checkExtent this _ _); cbn [negb andb]; [|reflexivity].
    destruct (_ || _)%bool; reflexivity. }
  split; [exact Hsample|]. split.
  - intros fuel threshold z x y points Hpts.
    unfold ArrowGrid_loadTile. rewrite Hpts. f_equal.
    set (bbox := tileBBox _ _ _ _ _ _).
    destruct (existsb (hasVector transform this bbox) points) eqn:Hany.
    + apply existsb_exists in Hany. destruct Hany as [ij [Hin Hv]].
      apply (forEachSample_throws _ _ ij Hin).
      rewrite Hsample, Hv. reflexivity.
    + rewrite (forEachSample_select _ (fun _ => false)
                 (fun ij => (ij, mkArrow NaN NaN NaN NaN))).
      * clear. induction points as [|p rest IH]; [reflexivity | exact IH].
      * intros ij Hin. rewrite Hsample.
        assert (Hv : hasVector transform this bbox ij = false).
        { destruct (hasVector transform this bbox ij) eqn:Hv; [|reflexivity].
          assert (existsb (hasVector transform this bbox) points = true)
            by (apply existsb_exists; exists ij; split; assumption).
          congruence. }
        rewrite Hv. reflexivity.
      * intros ij. reflexivity.
  - intros coordinate params. unfold ArrowGrid_getVectorAtCoordinate.
    fold (paramsAt this (transform (fst coordinate) (snd coordinate))).
    fold params. rewrite Hex. destruct (_ || _)%bool; reflexivity.
Qed.

End NoExtremes.

Lemma ArrowGrid_without_extremes_throws_witness :
  ArrowGrid_getVectorAtCoordinate pair hypotDown (fun _ _ => NaN)
    (exampleArrowGrid [of_Z 0] [of_Z 0] 1 1 (mkExtent 0%Z 0%Z 1%Z 1%Z) None)
    (Fin (1 # 2), Fin (1 # 2))
  = TypeError.
Proof.
  destruct (ArrowGrid_without_extremes_throws pair
              (fun _ => (of_Z 0, of_Z 0)) (fun _ => of_Z 1)
              hypotDown (fun _ _ => NaN)
              (exampleArrowGrid [of_Z 0] [of_Z 0] 1 1
                 (mkExtent 0%Z 0%Z 1%Z 1%Z) None) eq_refl)
    as [_ [_ Hq]].
  rewrite Hq. vm_compute. reflexivity.
Defined.

Lemma rangeOf_perChannel (rs : list Range) (index : nat) :
  rs <> [] -> rangeOf (PerChannel rs) index = nth_error rs index.
Proof. destruct rs; [contradiction | reflexivity]. Qed.

Lemma dequantize_NaN_range (raw : num) : dequantize raw (NaN, NaN) = NaN.
Proof.
  unfold dequantize; cbn [fst snd]. apply add_NaN_r.
Qed.

Lemma LabelGrid_mapChannels_throws (rs : list Range)
    (params : InterpolationParams) (grids : list Grid) :
  rs <> [] ->
  forall k : nat,
    LabelGrid_mapChannels (PerChannel rs) params k grids = TypeError
    <-> exists (i : nat) (g : Grid),
          nth_error grids i = Some g
          /\ (List.length rs <= k + i)%nat
          /\ isNaN (interpolateGridValue g params) = false.
Proof.
  intros Hrs. induction grids as [|grid rest IH]; intros k.
  - cbn [LabelGrid_mapChannels]. split; [discriminate|].
    intros [[|i] [g [H _]]]; discriminate H.
  - cbn [LabelGrid_mapChannels]. rewrite (rangeOf_perChannel rs k Hrs).
    specialize (IH (S k)).
    destruct (isNaN (interpolateGridValue grid params)) eqn:Eraw.
    + cbn [bind]. split.
      * intros H.
        destruct (LabelGrid_mapChannels (PerChannel rs) params (S k) rest)
          eqn:Er; [discriminate H|].
        destruct (proj1 IH eq_refl) as [i [g [Hg [Hlen Hn]]]].
        exists (S i), g. repeat split; [exact Hg | lia | exact Hn].
      * intros [[|i] [g [Hg [Hlen Hn]]]].
        -- cbn [nth_error] in Hg. injection Hg as <-. congruence.
        -- cbn [nth_error] in Hg.
           assert (Hr : LabelGrid_mapChannels (PerChannel rs) params (S k) rest
                        = TypeError).
           { apply IH. exists i, g. repeat split; [exact Hg | lia | exact Hn]. }
           rewrite Hr. reflexivity.
    + destruct (nth_error rs k) as [r|] eqn:Er.
      * cbn [dequantize_at bind]. split.
        -- intros H.
           destruct (LabelGrid_mapChannels (PerChannel rs) params (S k) rest)
             eqn:Em; [discriminate H|].
           destruct (proj1 IH eq_refl) as [i [g [Hg [Hlen Hn]]]].
           exists (S i), g. repeat split; [exact Hg | lia | exact Hn].
        -- intros [[|i] [g [Hg [Hlen Hn]]]].
           ++ exfalso. assert (k < List.length rs)%nat
                by (apply nth_error_Some; congruence). lia.
           ++ cbn [nth_error] in Hg.
              assert (Hr : LabelGrid_mapChannels (PerChannel rs) params (S k)
                             rest = TypeError).
              { apply IH. exists i, g.
                repeat split; [exact Hg | lia | exact Hn]. }
              rewrite Hr. reflexivity.
      * cbn [dequantize_at bind]. split; [intros _|reflexivity].
        exists 0%nat, grid. repeat split; [|exact Eraw].
        apply nth_error_None in Er. lia.
Qed.

Lemma LabelGrid_mapChannels_empty_ranges
    (params : InterpolationParams) (grids : list Grid) :
  forall k : nat,
    LabelGrid_mapChannels (PerChannel []) params k grids
    = Ok (map (fun _ => NaN) grids).
Proof.
  induction grids as [|grid rest IH]; intros k; [reflexivity|].
  cbn [LabelGrid_mapChannels rangeOf dequantize_at]. rewrite IH.
  rewrite dequantize_NaN_range.
  destruct (isNaN _); reflexivity.
Qed.

(** X13.  The label query with one range per channel: when the list of
    ranges is non-empty but shorter than the list of channels, the query
    throws a TypeError exactly when some channel without a range has data at
    the coordinate (a channel that interpolates to NaN is reported as NaN
    before its range is read).  With an empty list of ranges nothing throws
    and every channel is reported as NaN. *)
Theorem LabelGrid_query_missing_ranges
    (transform : num -> num -> num * num) (this : LabelGrid)
    (coordinate : num * num) (rs : list Range) :
  extremes this = PerChannel rs ->
  let params :=
    paramsAt this (transform (fst coordinate) (snd coordinate)) in
  (rs <> [] ->
   (LabelGrid_getDataAtCoordinate transform this coordinate = TypeError
    <-> exists (k : nat) (g : Grid),
          nth_error (data this) k = Some g
          /\ (List.length rs <= k)%nat
          /\ isNaN (interpolateGridValue g params) = false))
  /\ (rs = [] ->
      LabelGrid_getDataAtCoordinate transform this coordinate
      = Ok (map (fun _ => NaN) (data this))).
Proof.
  intros Hex params. unfold LabelGrid_getDataAtCoordinate.
  fold (paramsAt this (transform (fst coordinate) (snd coordinate))).
  fold params. rewrite Hex. split.
  - intros Hrs.
    rewrite (LabelGrid_mapChannels_throws rs params (data this) Hrs 0).
    split; intros [k [g [Hg [Hlen Hn]]]]; exists k, g;
      repeat split; try assumption; lia.
  - intros ->. apply LabelGrid_mapChannels_empty_ranges.
Qed.

Lemma LabelGrid_query_missing_ranges_witness :
  LabelGrid_getDataAtCoordinate pair
    (mkSource (list Grid) LabelExtremes
       [[of_Z 10]; [of_Z 20]] (PerChannel [(0%Z : num, 1%Z : num)])
       1%Z 1%Z (mkExtent 0%Z 0%Z 1%Z 1%Z) 256%Z 256%Z
       (gridSteps 256%Z 256%Z LabelGrid_divisors
          (LabelGrid_spacingFactor None))
       (mkParams 0%Z 0%Z 0%Z 0%Z 0%Z 0%Z))
    (Fin (1 # 2), Fin (1 # 2))
  = TypeError.
Proof.
  set (this := mkSource _ _ _ _ _ _ _ _ _ _ _).
  destruct (LabelGrid_query_missing_ranges pair this
              (Fin (1 # 2), Fin (1 # 2)) [(0%Z : num, 1%Z : num)] eq_refl)
    as [Hthrow _].
  apply Hthrow; [intros H; discriminate H|].
  exists 1%nat, [of_Z 20]. split; [reflexivity|]. split; [cbn; lia|].
  vm_compute. reflexivity.
Defined.

(** ** Degenerate strides *)

Lemma stepZ_zero (tile d : Z) :
  (0 <= 2 * tile < d)%Z -> stepZ tile d = 0%Z.
Proof.
  intros H. unfold stepZ.
  assert (Hd : 0 < inject_Z d)
    by (change 0 with (inject_Z 0); rewrite <- Zlt_Qlt; lia).
  assert (Ht : 0 <= inject_Z tile)
    by (change 0 with (inject_Z 0); rewrite <- Zle_Qle; lia).
  assert (H2 : inject_Z tile * 2 < inject_Z d).
  { change 2 with (inject_Z 2). rewrite <- inject_Z_mult, <- Zlt_Qlt. lia. }
  assert (Hq : inject_Z tile / inject_Z d < 1 # 2)
    by (apply Qlt_shift_div_r; [exact Hd | lra]).
  assert (Hq0 : 0 <= inject_Z tile / inject_Z d)
    by (apply Qle_shift_div_l; [exact Hd | lra]).
  assert (Hlo : (0 <= Qfloor (inject_Z tile / inject_Z d + (1 # 2)))%Z)
    by (apply (Qfloor_ge _ 0); change (inject_Z 0) with 0; lra).
  assert (Hhi : inject_Z (Qfloor (inject_Z tile / inject_Z d + (1 # 2)))
                < inject_Z 1).
  { eapply Qle_lt_trans; [apply Qfloor_le|]. change (inject_Z 1) with 1. lra. }
  rewrite <- Zlt_Qlt in Hhi. lia.
Qed.

Lemma loopIndices_zero_step (fuel : nat) (tile : Z) :
  (1 <= tile)%Z -> loopIndices fuel (of_Z tile) (of_Z 0) = None.
Proof. intros H. apply loopFrom_zero_step. exact H. Qed.

(** X14.  When a tile side is less than half the selected divisor, the
    stride rounds to 0 and the sampling loop never advances: whatever the
    fuel, the sample points of the tile are never produced, so [loadTile]
    does not return (for instance the raster source at spacing factor 1,
    divisor 256, on tiles of fewer than 128 pixels). *)
Theorem zero_stride_never_ends
    (tW tH : Z) (ds : list Z) (sf : Z) :
  ds <> [] -> firstLargest ds ->
  (1 <= tW)%Z -> (1 <= tH)%Z ->
  let d := nth (Z.to_nat (indexZ (Z.of_nat (List.length ds)) sf)) ds 0%Z in
  (2 * tW < d)%Z \/ (2 * tH < d)%Z ->
  forall fuel : nat,
    samplePoints fuel (of_Z tW) (of_Z tH)
      (gridSteps (of_Z tW) (of_Z tH) (tableOf ds) (Some (of_Z sf)))
    = None.
Proof.
  intros Hne Hfirst HtW HtH d Hsmall fuel.
  destruct (gridSteps_of_Z tW tH ds sf Hne Hfirst) as [_ [EX EY]].
  fold d in EX, EY. unfold samplePoints. rewrite EX, EY.
  destruct Hsmall as [H | H].
  - rewrite (stepZ_zero tW d) by lia.
    rewrite loopIndices_zero_step by exact HtW. reflexivity.
  - rewrite (stepZ_zero tH d) by lia.
    rewrite (loopIndices_zero_step fuel tH) by exact HtH.
    destruct (loopIndices fuel _ _); reflexivity.
Qed.

Lemma zero_stride_never_ends_witness :
  samplePoints 1000 64%Z 64%Z
    (gridSteps 64%Z 64%Z ColorGrid_divisors
       (ColorGrid_spacingFactor (Some (of_Z 1))))
  = None.
Proof.
  apply (zero_stride_never_ends 64 64 [256; 128; 64; 32; 16]%Z 1).
  - intros H; discriminate H.
  - apply firstLargest_raster.
  - lia.
  - lia.
  - left. vm_compute. reflexivity.
Defined.

Lemma index_of_fraction (q : Q) :
  ~ q == inject_Z (Qfloor q) -> index_of (Fin q) = None.
Proof.
  intros H. unfold index_of. rewrite (Qeq_bool_false _ _ H). reflexivity.
Qed.

Lemma fractional_minus_one (q : Q) :
  ~ q == inject_Z (Qfloor q) ->
  ~ q + - inject_Z 1 == inject_Z (Qfloor (q + - inject_Z 1)).
Proof.
  intros H E. apply H.
  assert (Hf : Qfloor (q + - inject_Z 1) = (Qfloor q - 1)%Z).
  { pose proof (Qfloor_le q) as H1. pose proof (Qlt_floor q) as H2.
    rewrite inject_Z_plus in H2.
    assert (A : (Qfloor q - 1 <= Qfloor (q + - inject_Z 1))%Z).
    { apply Qfloor_ge. unfold Z.sub. rewrite inject_Z_plus, inject_Z_opp.
      lra. }
    assert (B : inject_Z (Qfloor (q + - inject_Z 1)) < inject_Z (Qfloor q)).
    { eapply Qle_lt_trans; [apply Qfloor_le|]. lra. }
    rewrite <- Zlt_Qlt in B. lia. }
  rewrite Hf in E. unfold Z.sub in E.
  rewrite inject_Z_plus, inject_Z_opp in E. lra.
Qed.

Lemma loopIndices_NaN_step (fuel : nat) (tile : Q) :
  0 < tile -> loopIndices (S (S fuel)) (Fin tile) NaN = Some [of_Z 0].
Proof.
  intros H. unfold loopIndices. cbn [loopFrom].
  assert (E : (of_Z 0 <? Fin tile)%js = true)
    by (apply lt_Fin; change (inject_Z 0) with 0; exact H).
  rewrite E. rewrite add_NaN_r. reflexivity.
Qed.

Lemma checkExtent_NaN_lon (extent : Extent) (lat : num) :
  createCheckExtentFunc extent NaN lat = false.
Proof.
  unfold createCheckExtentFunc, ge.
  destruct (_ <? _)%js; rewrite !le_NaN_r; cbn [le];
    rewrite ?andb_false_r; reflexivity.
Qed.

(** X15.  A spacing factor that is not an integer and lies strictly inside
    the table (1 < sf < length) selects no divisor: the index is fractional,
    the read is undefined, and both strides and half strides are NaN.  Each
    loop then runs once, so the tile has the single sample (0, 0), whose
    data-space point under the identity transform is (NaN, NaN); the raster
    source draws nothing for it. *)
Theorem fractional_spacing_factor
    (divisors : list num) (sf : Q) (tW tH : Q) (fuel : nat) :
  ~ sf == inject_Z (Qfloor sf) ->
  1 < sf -> sf < inject_Z (Z.of_nat (List.length divisors)) ->
  0 < tW -> 0 < tH ->
  let s := gridSteps (Fin tW) (Fin tH) divisors (Some (Fin sf)) in
  s = mkSteps NaN NaN NaN NaN
  /\ samplePoints (S (S fuel)) (Fin tW) (Fin tH) s
     = Some [(of_Z 0, of_Z 0)]
  /\ (forall (this : ColorGrid) (bbox : Extent) (i j : num),
         steps this = s ->
         samplePoint pair this bbox i j = (NaN, NaN)
         /\ ColorGrid_sample pair this bbox i j = None).
Proof.
  intros Hfrac Hlo Hhi HtW HtH s.
  assert (Hidx : divisorIdx divisors (Some (Fin sf))
                 = Fin (sf + - inject_Z 1)).
  { unfold divisorIdx, JS.length, nullish. rewrite sub_of_Z.
    change (Fin sf - of_Z 1)%js with (Fin (sf + - inject_Z 1)).
    unfold min, max, lt, of_Z.
    assert (E1 : Qle_bool
                   (inject_Z (Z.of_nat (List.length divisors) - 1))
                   (sf + - inject_Z 1) = false).
    { apply not_true_is_false. intros E.
      apply Qle_bool_iff in E. unfold Z.sub in E.
      rewrite inject_Z_plus, inject_Z_opp in E. lra. }
    rewrite E1. cbn [negb].
    assert (E2 : Qle_bool (sf + - inject_Z 1) (inject_Z 0) = false).
    { apply not_true_is_false. intros E.
      apply Qle_bool_iff in E. change (inject_Z 0) with 0 in E.
      change (inject_Z 1) with 1 in E. lra. }
    rewrite E2. reflexivity. }
  assert (Es : s = mkSteps NaN NaN NaN NaN).
  { unfold s, gridSteps. rewrite Hidx. unfold get.
    rewrite (index_of_fraction _ (fractional_minus_one sf Hfrac)).
    reflexivity. }
  split; [exact Es|]. split.
  - rewrite Es. unfold samplePoints; cbn [gridStepX gridStepY].
    rewrite !loopIndices_NaN_step by assumption. reflexivity.
  - intros this bbox i j Hsteps.
    assert (Ep : samplePoint pair this bbox i j = (NaN, NaN)).
    { unfold samplePoint. rewrite Hsteps, Es; cbn [halfStepX halfStepY].
      rewrite !add_NaN_r, !mul_NaN_r. unfold sub. cbn [neg].
      rewrite !add_NaN_r. reflexivity. }
    split; [exact Ep|].
    unfold ColorGrid_sample. rewrite Ep. cbn [fst snd].
    unfold checkExtent.
    rewrite (checkExtent_NaN_lon (dataExtent this) NaN). reflexivity.
Qed.

Lemma fractional_spacing_factor_witness :
  gridSteps 256%Z 256%Z ColorGrid_divisors (Some (Fin (5 # 2)))
  = mkSteps NaN NaN NaN NaN
  /\ samplePoints 2 256%Z 256%Z
       (gridSteps 256%Z 256%Z ColorGrid_divisors (Some (Fin (5 # 2))))
     = Some [(of_Z 0, of_Z 0)].
Proof.
  destruct (fractional_spacing_factor ColorGrid_divisors (5 # 2) 256 256 0)
    as [Hs [Hp _]].
  - vm_compute. intros H; discriminate H.
  - reflexivity.
  - reflexivity.
  - reflexivity.
  - reflexivity.
  - split; [exact Hs | exact Hp].
Defined.

(** ** The sample grid and the tile bounding box *)

Lemma loopFrom_values (tile step : Z) :
  (1 <= step)%Z ->
  forall (fuel : nat) (i : Z),
    (Z.max 0 (tile - i) < Z.of_nat fuel)%Z ->
    exists l : list num,
      loopFrom fuel (of_Z i) (of_Z tile) (of_Z step) = Some l
      /\ forall v : num,
           In v l
           <-> exists k : Z, (0 <= k)%Z /\ (i + k * step < tile)%Z
                             /\ v = of_Z (i + k * step).
Proof.
  intros Hstep. induction fuel as [|fuel IH]; intros i Hfuel; [lia|].
  cbn [loopFrom]. rewrite lt_of_Z.
  destruct (Z.ltb_spec i tile) as [Hlt | Hge].
  - rewrite add_of_Z.
    destruct (IH (i + step)%Z) as [l [El Hl]]; [lia|].
    rewrite El. exists (of_Z i :: l). split; [reflexivity|].
    intros v. cbn [In]. rewrite Hl. split.
    + intros [<- | [k [Hk [Hb ->]]]].
      * exists 0%Z. repeat split; try lia; f_equal; lia.
      * exists (k + 1)%Z. repeat split; try lia; f_equal; lia.
    + intros [k [Hk [Hb ->]]].
      destruct (Z.eq_dec k 0) as [-> | Hnz].
      * left. f_equal. lia.
      * right. exists (k - 1)%Z. repeat split; try lia; f_equal; lia.
  - exists []. split; [reflexivity|]. intros v. cbn [In]. split; [tauto|].
    intros [k [Hk [Hb _]]]. nia.
Qed.

(** X16.  With integer tile sizes and integer strides of at least 1, the
    sampling loops end, and the sample points are exactly the pairs
    (a * gridStepX, b * gridStepY) of non-negative multiples of the strides
    that lie inside the tile. *)
Theorem samplePoints_are_stride_multiples
    (fuel : nat) (tW tH sx sy : Z) (hx hy : num) :
  (1 <= sx)%Z -> (1 <= sy)%Z ->
  (0 <= tW < Z.of_nat fuel)%Z -> (0 <= tH < Z.of_nat fuel)%Z ->
  exists points : list (num * num),
    samplePoints fuel (of_Z tW) (of_Z tH)
      (mkSteps (of_Z sx) (of_Z sy) hx hy) = Some points
    /\ forall i j : num,
         In (i, j) points
         <-> exists a b : Z,
               (0 <= a)%Z /\ (a * sx < tW)%Z
               /\ (0 <= b)%Z /\ (b * sy < tH)%Z
               /\ i = of_Z (a * sx) /\ j = of_Z (b * sy).
Proof.
  intros Hsx Hsy HtW HtH.
  destruct (loopFrom_values tW sx Hsx fuel 0) as [cols [Ec Hc]]; [lia|].
  destruct (loopFrom_values tH sy Hsy fuel 0) as [rows [Er Hr]]; [lia|].
  unfold samplePoints, loopIndices; cbn [gridStepX gridStepY].
  rewrite Ec, Er. eexists. split; [reflexivity|].
  intros i j. rewrite in_flat_map. split.
  - intros [c [Hin Hpair]]. apply in_map_iff in Hpair.
    destruct Hpair as [r [E Hrin]]. injection E as <- <-.
    apply Hc in Hin. apply Hr in Hrin.
    destruct Hin as [a [Ha [Hab ->]]]. destruct Hrin as [b [Hb [Hbb ->]]].
    exists a, b. repeat split; try lia; f_equal; lia.
  - intros [a [b [Ha [Hab [Hb [Hbb [-> ->]]]]]]].
    exists (of_Z (a * sx)). split.
    + apply Hc. exists a. repeat split; try lia; f_equal; lia.
    + apply in_map_iff. exists (of_Z (b * sy)). split; [reflexivity|].
      apply Hr. exists b. repeat split; try lia; f_equal; lia.
Qed.

Lemma samplePoints_are_stride_multiples_witness :
  exists points : list (num * num),
    samplePoints 300 256%Z 256%Z (mkSteps 64%Z 64%Z 32%Z 32%Z) = Some points
    /\ In (of_Z 128, of_Z 64) points.
Proof.
  destruct (samplePoints_are_stride_multiples 300 256 256 64 64 32%Z 32%Z)
    as [points [E H]]; try lia.
  exists points. split; [exact E|].
  apply H. exists 2%Z, 1%Z. repeat split; lia.
Defined.

(** ** Byte arrays *)

Lemma setNth_length {A : Type} (n : nat) (x : A) (l : list A) :
  List.length (setNth n x l) = List.length l.
Proof.
  revert n. induction l as [|a l IH]; intros [|n]; cbn; try reflexivity.
  rewrite IH. reflexivity.
Qed.

Lemma nth_setNth {A : Type} (n k : nat) (x d : A) (l : list A) :
  nth k (setNth n x l) d
  = if (k =? n)%nat && (n <? List.length l)%nat then x else nth k l d.
Proof.
  revert n k. induction l as [|a l IH]; intros n k.
  - cbn [List.length].
    replace (n <? 0)%nat with false by (symmetry; apply Nat.ltb_ge; lia).
    rewrite andb_false_r. destruct n; reflexivity.
  - destruct n as [|n], k as [|k]; cbn [setNth nth List.length];
      try reflexivity.
    rewrite IH. reflexivity.
Qed.

Lemma Qtrunc_integer (q : Q) (z : Z) :
  q == inject_Z z -> Qtrunc q = z.
Proof.
  intros H. unfold Qtrunc.
  rewrite (Qfloor_comp _ _ H), (Qceiling_comp _ _ H), Qfloor_Z, Qceiling_Z.
  destruct (Qle_bool 0 q); reflexivity.
Qed.

Lemma toUint8_byte (b : Z) : (0 <= b <= 255)%Z -> toUint8 (of_Z b) = of_Z b.
Proof.
  intros H. unfold toUint8, of_Z.
  rewrite (Qtrunc_integer (inject_Z b) b) by reflexivity.
  rewrite Z.mod_small by lia. reflexivity.
Qed.

Lemma index_of_integer (q : Q) (z : Z) :
  q == inject_Z z -> (0 <= z)%Z -> index_of (Fin q) = Some (Z.to_nat z).
Proof.
  intros H Hz. unfold index_of.
  rewrite (Qfloor_comp _ _ H), Qfloor_Z.
  assert (E : Qeq_bool q (inject_Z z) = true) by (apply Qeq_bool_iff; exact H).
  rewrite E. apply Z.leb_le in Hz. rewrite Hz. reflexivity.
Qed.

Lemma store_integer (arr : list num) (q : Q) (z : Z) (value : num) :
  q == inject_Z z -> (0 <= z)%Z ->
  store arr (Fin q) value = setNth (Z.to_nat z) (toUint8 value) arr.
Proof.
  intros H Hz. unfold store. rewrite (index_of_integer q z H Hz). reflexivity.
Qed.

Lemma newUint8Array_integer (q : Q) (n : nat) :
  q == inject_Z (Z.of_nat n) -> (Z.of_nat n <= 2 ^ 53 - 1)%Z ->
  newUint8Array (Fin q) = Allocated (repeat (of_Z 0) n).
Proof.
  intros H Hn. unfold newUint8Array.
  rewrite (Qtrunc_integer q _ H).
  assert (E1 : (Z.of_nat n <? 0)%Z = false) by (apply Z.ltb_ge; lia).
  assert (E2 : (2 ^ 53 - 1 <? Z.of_nat n)%Z = false) by (apply Z.ltb_ge; lia).
  rewrite E1, E2, Nat2Z.id. reflexivity.
Qed.

(** ** [decodeImage]: splitting packed pixels into channels *)

Section Decode.

Variable imageData : list num.
Variable n : nat.
Hypothesis data_length : List.length imageData = (4 * n)%nat.
Hypothesis data_bytes : forall k : nat,
  (k < 4 * n)%nat -> isByte (nth k imageData NaN).

Lemma get_pixel_byte (m : nat) (c : Z) :
  (m < n)%nat -> (0 <= c <= 3)%Z ->
  get imageData (of_Z (Z.of_nat (4 * m) + c))
  = nth (4 * m + Z.to_nat c) imageData NaN
  /\ toUint8 (nth (4 * m + Z.to_nat c) imageData NaN)
     = nth (4 * m + Z.to_nat c) imageData NaN.
Proof.
  intros Hm Hc. unfold get. rewrite index_of_of_Z by lia.
  replace (Z.to_nat (Z.of_nat (4 * m) + c)) with (4 * m + Z.to_nat c)%nat
    by lia.
  split; [reflexivity|].
  destruct (data_bytes (4 * m + Z.to_nat c)) as [b [-> Hb]]; [lia|].
  apply toUint8_byte. exact Hb.
Qed.

Lemma decodeFrom_invariant :
  forall (fuel m : nat) (ch : Channels),
    (m <= n)%nat -> (n - m < fuel)%nat ->
    decodedUpTo imageData n m ch ->
    exists ch' : Channels,
      decodeFrom fuel imageData (of_Z (Z.of_nat (4 * m))) ch = Some ch'
      /\ decodedUpTo imageData n n ch'.
Proof.
  induction fuel as [|fuel IH]; intros m ch Hm Hfuel Hinv; [lia|].
  cbn [decodeFrom]. unfold JS.length. rewrite data_length, lt_of_Z.
  destruct (Z.ltb_spec (Z.of_nat (4 * m)) (Z.of_nat (4 * n))) as [Hlt | Hge].
  - assert (Hmn : (m < n)%nat) by lia.
    assert (Eidx : inject_Z (Z.of_nat (4 * m)) / inject_Z 4
                   == inject_Z (Z.of_nat m)).
    { replace (Z.of_nat (4 * m)) with (Z.of_nat m * 4)%Z by lia.
      rewrite inject_Z_mult. field. }
    change (of_Z (Z.of_nat (4 * m)) / of_Z 4)%js
      with (Fin (inject_Z (Z.of_nat (4 * m))) / Fin (inject_Z 4))%js.
    rewrite div_Fin by (intros H; discriminate H).
    rewrite !(store_integer _ _ (Z.of_nat m) _ Eidx) by lia.
    rewrite Nat2Z.id, !add_of_Z.
    destruct (get_pixel_byte m 1 Hmn) as [G1 U1]; [lia|].
    destruct (get_pixel_byte m 2 Hmn) as [G2 U2]; [lia|].
    destruct (get_pixel_byte m 3 Hmn) as [G3 U3]; [lia|].
    destruct (get_pixel_byte m 0 Hmn) as [G0 U0]; [lia|].
    rewrite Z.add_0_r in G0.
    rewrite G0, G1, G2, G3, U0, U1, U2, U3.
    change (Z.to_nat 0) with 0%nat. change (Z.to_nat 1) with 1%nat.
    change (Z.to_nat 2) with 2%nat. change (Z.to_nat 3) with 3%nat.
    rewrite Nat.add_0_r.
    replace (Z.of_nat (4 * m) + 4)%Z with (Z.of_nat (4 * S m)) by lia.
    apply IH; [lia | lia |].
    destruct Hinv as [LR [LG [LB [LA Hcells]]]].
    unfold decodedUpTo; cbn [chR chG chB chA].
    rewrite !setNth_length.
    repeat (split; [assumption|]).
    intros k Hk. rewrite !nth_setNth, LR, LG, LB, LA.
    destruct (Nat.eqb_spec k m) as [-> | Hne].
    + assert (E : (m <? n)%nat = true) by (apply Nat.ltb_lt; lia).
      rewrite E. cbn [andb]. repeat split; reflexivity.
    + cbn [andb]. apply Hcells. lia.
  - exists ch. split; [reflexivity|].
    assert (m = n) by lia. subst m. exact Hinv.
Qed.

Lemma interleave_channels :
  forall (m : nat) (r g b a data : list num),
    List.length r = m -> List.length g = m ->
    List.length b = m -> List.length a = m ->
    List.length data = (4 * m)%nat ->
    (forall k : nat,
        (k < m)%nat ->
        nth k r NaN = nth (4 * k) data NaN
        /\ nth k g NaN = nth (4 * k + 1) data NaN
        /\ nth k b NaN = nth (4 * k + 2) data NaN
        /\ nth k a NaN = nth (4 * k + 3) data NaN) ->
    interleave r g b a = data.
Proof.
  induction m as [|m IH]; intros r g b a data LR LG LB LA LD Hcells.
  - destruct data; [|discriminate]. destruct r; [|discriminate].
    reflexivity.
  - destruct r as [|x r]; [discriminate|]. destruct g as [|y g]; [discriminate|].
    destruct b as [|z b]; [discriminate|]. destruct a as [|t a]; [discriminate|].
    destruct data as [|d0 [|d1 [|d2 [|d3 data]]]];
      cbn [List.length] in LD; try (exfalso; lia).
    cbn [interleave].
    destruct (Hcells 0%nat) as [E0 [E1 [E2 E3]]]; [lia|].
    cbn in E0, E1, E2, E3. subst.
    do 4 f_equal. apply (IH r g b a data).
    + cbn in LR. lia.
    + cbn in LG. lia.
    + cbn in LB. lia.
    + cbn in LA. lia.
    + cbn [List.length] in LD. lia.
    + intros k Hk. destruct (Hcells (S k)) as [F0 [F1 [F2 F3]]]; [lia|].
      replace (4 * S k)%nat with (S (S (S (S (4 * k))))) in * by lia.
      cbn [nth Nat.add] in F0, F1, F2, F3.
      repeat split; assumption.
Qed.

(** X18.  For the 4n bytes of n packed RGBA pixels, the pixel loop of
    [decodeImage] ends with four channels of n cells each; cell k of the
    red, green, blue and alpha channel holds byte 4k, 4k+1, 4k+2 and 4k+3 of
    the input, so that interleaving the four channels gives the input
    back. *)
Theorem decodeImage_splits_channels (fuel : nat) :
  (n < fuel)%nat -> (Z.of_nat n <= 2 ^ 53 - 1)%Z ->
  exists ch : Channels,
    decodeChannels fuel imageData = Some (Allocated ch)
    /\ List.length (chR ch) = n /\ List.length (chG ch) = n
    /\ List.length (chB ch) = n /\ List.length (chA ch) = n
    /\ (forall k : nat,
           (k < n)%nat ->
           nth k (chR ch) NaN = nth (4 * k) imageData NaN
           /\ nth k (chG ch) NaN = nth (4 * k + 1) imageData NaN
           /\ nth k (chB ch) NaN = nth (4 * k + 2) imageData NaN
           /\ nth k (chA ch) NaN = nth (4 * k + 3) imageData NaN)
    /\ interleave (chR ch) (chG ch) (chB ch) (chA ch) = imageData.
Proof.
  intros Hfuel Hmax. unfold decodeChannels, JS.length.
  rewrite data_length.
  assert (Esize : inject_Z (Z.of_nat (4 * n)) / inject_Z 4
                  == inject_Z (Z.of_nat n)).
  { replace (Z.of_nat (4 * n)) with (Z.of_nat n * 4)%Z by lia.
    rewrite inject_Z_mult. field. }
  change (of_Z (Z.of_nat (4 * n)) / of_Z 4)%js
    with (Fin (inject_Z (Z.of_nat (4 * n))) / Fin (inject_Z 4))%js.
  rewrite div_Fin by (intros H; discriminate H).
  rewrite (newUint8Array_integer _ n Esize Hmax).
  destruct (decodeFrom_invariant fuel 0
              (mkChannels (repeat (of_Z 0) n) (repeat (of_Z 0) n)
                 (repeat (of_Z 0) n) (repeat (of_Z 0) n)))
    as [ch [Ech Hinv]]; [lia | lia | |].
  { unfold decodedUpTo; cbn [chR chG chB chA]. rewrite !repeat_length.
    repeat (split; [reflexivity|]). intros k Hk. lia. }
  change (Z.of_nat (4 * 0)) with 0%Z in Ech. rewrite Ech.
  exists ch. split; [reflexivity|].
  destruct Hinv as [LR [LG [LB [LA Hcells]]]].
  repeat (split; [assumption|]).
  apply (interleave_channels n); assumption.
Qed.

End Decode.

Lemma decodeImage_splits_channels_witness :
  exists ch : Channels,
    decodeChannels 3
      [of_Z 1; of_Z 2; of_Z 3; of_Z 4; of_Z 5; of_Z 6; of_Z 7; of_Z 8]
    = Some (Allocated ch)
    /\ chG ch = [of_Z 2; of_Z 6].
Proof.
  destruct (decodeImage_splits_channels
              [of_Z 1; of_Z 2; of_Z 3; of_Z 4; of_Z 5; of_Z 6; of_Z 7; of_Z 8]
              2 eq_refl) with (fuel := 3%nat)
    as [ch [E _]].
  - intros k Hk.
    destruct k as [|[|[|[|[|[|[|[|k]]]]]]]];
      try (eexists; split; [reflexivity | lia]).
    lia.
  - lia.
  - vm_compute. intros H; discriminate H.
  - exists ch. split; [exact E|].
    vm_compute in E. injection E as <-. reflexivity.
Defined.

(** ** [createHeatmapStyle]: normalized stops *)

Lemma stopPosition_Fin (lo hi value : Q) :
  exists x p : Q,
    Heatmap.stopPosition (Fin lo) (Fin hi - Fin lo)%js (Fin value) = Fin p
    /\ (hi - lo == 0 -> x == 0)
    /\ (~ hi - lo == 0 -> x == (value - lo) / (hi - lo))
    /\ 0 <= p /\ p <= 1
    /\ (x <= 0 -> p == 0) /\ (1 <= x -> p == 1)
    /\ (0 <= x -> x <= 1 -> p == x).
Proof.
  unfold Heatmap.stopPosition.
  change (Fin hi - Fin lo)%js with (Fin (hi + - lo)).
  change (Fin value - Fin lo)%js with (Fin (value + - lo)).
  cbn [Heatmap.strictEq of_Z]. unfold of_Z.
  assert (Hx : exists x : Q,
             (if Qeq_bool (hi + - lo) (inject_Z 0)
              then Fin (inject_Z 0)
              else (Fin (value + - lo) / Fin (hi + - lo))%js) = Fin x
             /\ (hi - lo == 0 -> x == 0)
             /\ (~ hi - lo == 0 -> x == (value - lo) / (hi - lo))).
  { destruct (Qeq_bool (hi + - lo) (inject_Z 0)) eqn:E.
    - apply Qeq_bool_iff in E. exists (inject_Z 0).
      split; [reflexivity|]. split; [reflexivity|].
      intros H. exfalso. apply H. exact E.
    - apply Qeq_bool_neq in E. rewrite (div_Fin _ _ E).
      eexists. split; [reflexivity|]. split; [|reflexivity].
      intros H. exfalso. apply E. exact H. }
  destruct Hx as [x [Ex [Hx0 Hx1]]]. rewrite Ex.
  destruct (min_Fin (inject_Z 1) x) as [m [Em [Hm1 [Hm2 Hm]]]].
  rewrite Em.
  destruct (max_Fin (inject_Z 0) m) as [p [Ep [Hp1 [Hp2 Hp]]]].
  rewrite Ep. exists x, p.
  change (inject_Z 1) with 1 in *. change (inject_Z 0) with 0 in *.
  split; [reflexivity|]. split; [exact Hx0|]. split; [exact Hx1|].
  split; [lra|].
  split; [destruct Hp as [Hp | Hp]; destruct Hm as [Hm | Hm]; lra|].
  split; [|split]; intros;
    destruct Hp as [Hp | Hp]; destruct Hm as [Hm | Hm]; lra.
Qed.

(** Stop [k] of the options fills places [2k] and [2k + 1] of the
    normalized stops: its position, then its own colour. *)
Lemma normalizedStops_nth (rangeMin span : num)
    (stops : list (num * String.string)) :
  List.length (Heatmap.normalizedStops rangeMin span stops)
  = (2 * List.length stops)%nat
  /\ forall (k : nat) (stop : num * String.string),
       nth_error stops k = Some stop ->
       nth_error (Heatmap.normalizedStops rangeMin span stops) (2 * k)
       = Some (Heatmap.Num (Heatmap.stopPosition rangeMin span (fst stop)))
       /\ nth_error (Heatmap.normalizedStops rangeMin span stops) (2 * k + 1)
          = Some (Heatmap.Str (snd stop)).
Proof.
  induction stops as [|s0 rest [IHlen IHnth]].
  - split; [reflexivity|]. intros [|k] stop H; discriminate H.
  - split.
    + unfold Heatmap.normalizedStops in *. cbn [flat_map app List.length].
      rewrite IHlen. lia.
    + intros [|k] stop H.
      * cbn [nth_error] in H. injection H as <-. split; reflexivity.
      * cbn [nth_error] in H. destruct (IHnth k stop H) as [A B].
        replace (2 * S k)%nat with (S (S (2 * k))) by lia.
        replace (S (S (2 * k)) + 1)%nat with (S (S (2 * k + 1))) by lia.
        unfold Heatmap.normalizedStops in *. cbn [flat_map app nth_error].
        split; [exact A | exact B].
Qed.

Module HeatmapFacts.

Import Stdlib.Strings.String.



End HeatmapFacts.

(** ** [ColorGrid.loadTile]: what the pixel buffer holds *)

Lemma store_of_Z (arr : list num) (z : Z) (value : num) :
  (0 <= z)%Z ->
  store arr (of_Z z) value = setNth (Z.to_nat z) (toUint8 value) arr.
Proof.
  intros Hz. unfold store. rewrite index_of_of_Z by exact Hz. reflexivity.
Qed.

(** The pixel that offset (k, l) of the block at (i, j) addresses. *)
Lemma writePixel_of_Z (tW i j k l : Z) (value : num) (buffer : list num) :
  let P := ((j + k) * tW + (i + l))%Z in
  (0 <= P)%Z ->
  writePixel (of_Z tW) (of_Z i) (of_Z j) value buffer (of_Z k, of_Z l)
  = setNth (Z.to_nat (P * 4 + 3)) (toUint8 (of_Z 255))
      (setNth (Z.to_nat (P * 4 + 2)) (toUint8 value)
         (setNth (Z.to_nat (P * 4 + 1)) (toUint8 value)
            (setNth (Z.to_nat (P * 4)) (toUint8 value) buffer))).
Proof.
  intros P HP. unfold writePixel; cbn [fst snd].
  rewrite !add_of_Z, !mul_of_Z, !add_of_Z, !mul_of_Z, !add_of_Z.
  fold P. rewrite !store_of_Z by lia. reflexivity.
Qed.

Lemma nth_pixel_writes (buffer : list num) (P R c : Z) (value : num) :
  (0 <= P)%Z -> (0 <= R)%Z -> (0 <= c <= 3)%Z ->
  (P * 4 + 3 < Z.of_nat (List.length buffer))%Z ->
  nth (Z.to_nat (R * 4 + c))
    (setNth (Z.to_nat (P * 4 + 3)) (toUint8 (of_Z 255))
       (setNth (Z.to_nat (P * 4 + 2)) (toUint8 value)
          (setNth (Z.to_nat (P * 4 + 1)) (toUint8 value)
             (setNth (Z.to_nat (P * 4)) (toUint8 value) buffer)))) NaN
  = if (R =? P)%Z then pixelByte value c
    else nth (Z.to_nat (R * 4 + c)) buffer NaN.
Proof.
  intros HP HR Hc Hlen.
  rewrite !nth_setNth, !setNth_length.
  rewrite (toUint8_byte 255) by lia.
  unfold pixelByte.
  repeat match goal with
    | |- context [(?a <? ?b)%nat] =>
        destruct (Nat.ltb_spec a b); [|exfalso; lia]
    end.
  rewrite !andb_true_r.
  destruct (Z.eqb_spec R P) as [-> | Hne].
  - assert (Hcase : (c = 0 \/ c = 1 \/ c = 2 \/ c = 3)%Z) by lia.
    destruct Hcase as [-> | [-> | [-> | ->]]]; cbn [Z.ltb Z.compare Pos.compare];
      repeat match goal with
        | |- context [(?a =? ?b)%nat] =>
            destruct (Nat.eqb_spec a b); try (exfalso; lia)
        end; reflexivity.
  - repeat match goal with
      | |- context [(?a =? ?b)%nat] =>
          destruct (Nat.eqb_spec a b); try (exfalso; lia)
      end; reflexivity.
Qed.

(** Folding a step over a list: a cell that every step either sets to one
    fixed value or leaves alone. *)
Lemma fold_left_cell {X : Type} (f : list num -> X -> list num)
    (covers : X -> Prop) (inv : list num -> Prop) (n : nat) (new : num) :
  forall (xs : list X) (buffer : list num),
    inv buffer ->
    (forall (b : list num) (x : X),
        In x xs -> inv b ->
        inv (f b x)
        /\ ((covers x /\ nth n (f b x) NaN = new)
            \/ (~ covers x /\ nth n (f b x) NaN = nth n b NaN))) ->
    inv (fold_left f xs buffer)
    /\ (((exists x : X, In x xs /\ covers x)
         /\ nth n (fold_left f xs buffer) NaN = new)
        \/ ((forall x : X, In x xs -> ~ covers x)
            /\ nth n (fold_left f xs buffer) NaN = nth n buffer NaN)).
Proof.
  induction xs as [|x xs IH]; intros buffer Hinv Hstep.
  - cbn [fold_left]. split; [exact Hinv|]. right.
    split; [intros x Hx; contradiction | reflexivity].
  - cbn [fold_left].
    destruct (Hstep buffer x (or_introl eq_refl) Hinv) as [Hinv' Hx].
    destruct (IH (f buffer x) Hinv') as [Hfinal Hrest].
    { intros b y Hy Hb. apply Hstep; [right; exact Hy | exact Hb]. }
    split; [exact Hfinal|].
    destruct Hrest as [[[y [Hy Hc]] E] | [Hnone E]].
    + left. split; [|exact E]. exists y. split; [right; exact Hy | exact Hc].
    + destruct Hx as [[Hc Ex] | [Hc Ex]].
      * left. split; [|rewrite E; exact Ex].
        exists x. split; [left; reflexivity | exact Hc].
      * right. split; [|rewrite E; exact Ex].
        intros y [<- | Hy]; [exact Hc | apply Hnone; exact Hy].
Qed.

Lemma of_Z_inj (a b : Z) : of_Z a = of_Z b -> a = b.
Proof. unfold of_Z, inject_Z. intros H. injection H as H. exact H. Qed.

Lemma row_major_unique (tW a b a' b' : Z) :
  (0 <= b < tW)%Z -> (0 <= b' < tW)%Z ->
  (a * tW + b = a' * tW + b')%Z -> a = a' /\ b = b'.
Proof. intros Hb Hb' E. assert (a = a') by nia. subst. lia. Qed.

Lemma loopIndices_unit_step (fuel : nat) (s : Z) :
  (0 <= s < Z.of_nat fuel)%Z ->
  exists l : list num,
    loopIndices fuel (of_Z s) (of_Z 1) = Some l
    /\ forall v : num,
         In v l <-> exists k : Z, (0 <= k < s)%Z /\ v = of_Z k.
Proof.
  intros Hs. unfold loopIndices.
  destruct (loopFrom_values s 1 ltac:(lia) fuel 0) as [l [El Hl]]; [lia|].
  exists l. split; [exact El|]. intros v. rewrite Hl. split.
  - intros [k [Hk [Hb ->]]]. exists k. split; [lia | f_equal; lia].
  - intros [k [Hk ->]]. exists k. repeat split; try lia. f_equal; lia.
Qed.

Lemma fillBlock_cell
    (fuel : nat) (tW tH sx sy zi zj px py c : Z) (value : num)
    (buffer : list num) :
  (1 <= sx < Z.of_nat fuel)%Z -> (1 <= sy < Z.of_nat fuel)%Z ->
  (0 <= zi)%Z -> (zi + sx <= tW)%Z -> (0 <= zj)%Z -> (zj + sy <= tH)%Z ->
  Z.of_nat (List.length buffer) = (tW * tH * 4)%Z ->
  (0 <= px < tW)%Z -> (0 <= py < tH)%Z -> (0 <= c <= 3)%Z ->
  exists buffer' : list num,
    fillBlock fuel (of_Z tW) (of_Z sx) (of_Z sy) (of_Z zi) (of_Z zj)
      value buffer = Some buffer'
    /\ List.length buffer' = List.length buffer
    /\ nth (Z.to_nat ((py * tW + px) * 4 + c)) buffer' NaN
       = if ((zi <=? px) && (px <? zi + sx)
             && (zj <=? py) && (py <? zj + sy))%Z
         then pixelByte value c
         else nth (Z.to_nat ((py * tW + px) * 4 + c)) buffer NaN.
Proof.
  intros Hsx Hsy Hzi Hzi' Hzj Hzj' Hlen Hpx Hpy Hc.
  destruct (loopIndices_unit_step fuel sy) as [ks [Eks Hks]]; [lia|].
  destruct (loopIndices_unit_step fuel sx) as [ls [Els Hls]]; [lia|].
  set (kls := flat_map (fun k => map (fun l => (k, l)) ls) ks).
  assert (Efill : fillBlock fuel (of_Z tW) (of_Z sx) (of_Z sy) (of_Z zi)
                    (of_Z zj) value buffer
                  = Some (fold_left
                            (writePixel (of_Z tW) (of_Z zi) (of_Z zj) value)
                            kls buffer)).
  { unfold fillBlock. rewrite Eks, Els. fold kls.
    destruct ks; reflexivity. }
  assert (Hkls : forall kl : num * num,
             In kl kls
             <-> exists k l : Z,
                   (0 <= k < sy)%Z /\ (0 <= l < sx)%Z
                   /\ kl = (of_Z k, of_Z l)).
  { intros kl. unfold kls. rewrite in_flat_map. split.
    - intros [k' [Hk Hin]]. apply in_map_iff in Hin.
      destruct Hin as [l' [<- Hl]].
      apply Hks in Hk. apply Hls in Hl.
      destruct Hk as [k [Hk ->]]. destruct Hl as [l [Hl ->]].
      exists k, l. repeat split; lia.
    - intros [k [l [Hk [Hl ->]]]]. exists (of_Z k). split.
      + apply Hks. exists k. split; [lia | reflexivity].
      + apply in_map_iff. exists (of_Z l). split; [reflexivity|].
        apply Hls. exists l. split; [lia | reflexivity]. }
  set (covers := fun kl : num * num =>
         exists k l : Z,
           kl = (of_Z k, of_Z l)
           /\ (zj + k = py)%Z /\ (zi + l = px)%Z).
  destruct (fold_left_cell
              (writePixel (of_Z tW) (of_Z zi) (of_Z zj) value) covers
              (fun b => List.length b = List.length buffer)
              (Z.to_nat ((py * tW + px) * 4 + c)) (pixelByte value c)
              kls buffer eq_refl) as [Hfinal Hcell].
  { intros b kl Hin Hb. apply Hkls in Hin.
    destruct Hin as [k [l [Hk [Hl ->]]]].
    assert (HP : (0 <= (zj + k) * tW + (zi + l))%Z) by nia.
    rewrite (writePixel_of_Z tW zi zj k l value b HP).
    split; [rewrite !setNth_length; exact Hb|].
    rewrite nth_pixel_writes; try lia; [|nia|rewrite Hb; nia].
    destruct (Z.eqb_spec (py * tW + px) ((zj + k) * tW + (zi + l)))
      as [E | Hne].
    - left. split; [|reflexivity].
      destruct (row_major_unique tW py px (zj + k) (zi + l)) as [E1 E2];
        [lia | lia | exact E |].
      exists k, l. repeat split; lia.
    - right. split; [|reflexivity].
      intros [k' [l' [Ekl [E1 E2]]]]. injection Ekl as Ek El.
      subst k' l'. apply Hne.
      rewrite E1, E2. reflexivity. }
  eexists. split; [exact Efill|]. split; [exact Hfinal|].
  destruct Hcell as [[[kl [Hin [k [l [-> [E1 E2]]]]]] E] | [Hnone E]].
  - apply Hkls in Hin. destruct Hin as [k' [l' [Hk [Hl Ekl]]]].
    injection Ekl as Ek El. subst k' l'.
    rewrite E.
    replace ((zi <=? px) && (px <? zi + sx)
             && (zj <=? py) && (py <? zj + sy))%Z with true; [reflexivity|].
    symmetry. rewrite !andb_true_iff, !Z.leb_le, !Z.ltb_lt. lia.
  - rewrite E.
    destruct ((zi <=? px) && (px <? zi + sx)
              && (zj <=? py) && (py <? zj + sy))%Z eqn:Hin; [|reflexivity].
    rewrite !andb_true_iff, !Z.leb_le, !Z.ltb_lt in Hin.
    exfalso. apply (Hnone (of_Z (py - zj), of_Z (px - zi))).
    + apply Hkls. exists (py - zj)%Z, (px - zi)%Z. repeat split; lia.
    + exists (py - zj)%Z, (px - zi)%Z. repeat split; lia.
Qed.

Lemma samplePoints_integer
    (fuel : nat) (tW tH sx sy : Z) (hx hy : num) :
  (1 <= sx)%Z -> (1 <= sy)%Z ->
  (0 <= tW < Z.of_nat fuel)%Z -> (0 <= tH < Z.of_nat fuel)%Z ->
  exists points : list (num * num),
    samplePoints fuel (of_Z tW) (of_Z tH)
      (mkSteps (of_Z sx) (of_Z sy) hx hy) = Some points
    /\ forall s : num * num,
         In s points
         <-> exists a b : Z,
               (0 <= a)%Z /\ (a * sx < tW)%Z
               /\ (0 <= b)%Z /\ (b * sy < tH)%Z
               /\ s = (of_Z (a * sx), of_Z (b * sy)).
Proof.
  intros Hsx Hsy HtW HtH.
  destruct (loopFrom_values tW sx Hsx fuel 0) as [cols [Ec Hc]]; [lia|].
  destruct (loopFrom_values tH sy Hsy fuel 0) as [rows [Er Hr]]; [lia|].
  unfold samplePoints, loopIndices; cbn [gridStepX gridStepY].
  rewrite Ec, Er. eexists. split; [reflexivity|].
  intros [i j]. rewrite in_flat_map. split.
  - intros [c [Hin Hpair]]. apply in_map_iff in Hpair.
    destruct Hpair as [r [E Hrin]]. injection E as <- <-.
    apply Hc in Hin. apply Hr in Hrin.
    destruct Hin as [a [Ha [Hab ->]]]. destruct Hrin as [b [Hb [Hbb ->]]].
    exists a, b. repeat split; try lia; f_equal; lia.
  - intros [a [b [Ha [Hab [Hb [Hbb E]]]]]]. injection E as -> ->.
    exists (of_Z (a * sx)). split.
    + apply Hc. exists a. repeat split; try lia; f_equal; lia.
    + apply in_map_iff. exists (of_Z (b * sy)). split; [reflexivity|].
      apply Hr. exists b. repeat split; try lia; f_equal; lia.
Qed.

Lemma block_origin (s a p : Z) :
  (1 <= s)%Z ->
  (a * s <= p < a * s + s)%Z <-> (a * s = p - p mod s)%Z.
Proof.
  intros Hs. pose proof (Z.mod_pos_bound p s ltac:(lia)) as Hm.
  split.
  - intros H. assert (E : (p mod s = p - a * s)%Z).
    { symmetry. apply (Z.mod_unique p s a); lia. }
    lia.
  - intros E. lia.
Qed.

Section RenderedPixels.

Variable transform : num -> num -> num * num.
Variable getOrigin : num -> num * num.
Variable getResolution : num -> num.

Variable this : ColorGrid.
Variables (tW tH sx sy nx ny : Z) (hx hy : num).
Hypothesis tile_width : tileW this = of_Z tW.
Hypothesis tile_height : tileH this = of_Z tH.
Hypothesis tile_steps : steps this = mkSteps (of_Z sx) (of_Z sy) hx hy.
Hypothesis step_x : (1 <= sx)%Z.
Hypothesis step_y : (1 <= sy)%Z.
Hypothesis columns : (tW = nx * sx)%Z.
Hypothesis rows : (tH = ny * sy)%Z.

Lemma renderSamples_cell (fuel : nat) (bbox : Extent) (px py c : Z) :
  (sx < Z.of_nat fuel)%Z -> (sy < Z.of_nat fuel)%Z ->
  (0 <= px < tW)%Z -> (0 <= py < tH)%Z -> (0 <= c <= 3)%Z ->
  let s0 := (of_Z (px - px mod sx), of_Z (py - py mod sy)) in
  let n := Z.to_nat ((py * tW + px) * 4 + c) in
  forall (points : list (num * num)) (buffer : list num),
    (forall s : num * num,
        In s points ->
        exists a b : Z,
          (0 <= a)%Z /\ (a * sx < tW)%Z /\ (0 <= b)%Z /\ (b * sy < tH)%Z
          /\ s = (of_Z (a * sx), of_Z (b * sy))) ->
    Z.of_nat (List.length buffer) = (tW * tH * 4)%Z ->
    exists buffer' : list num,
      renderSamples transform fuel this bbox points buffer = Some buffer'
      /\ List.length buffer' = List.length buffer
      /\ ((In s0 points
           /\ exists value : num,
                ColorGrid_sample transform this bbox (fst s0) (snd s0)
                = Some value
                /\ nth n buffer' NaN = pixelByte value c)
          \/ ((~ In s0 points
               \/ ColorGrid_sample transform this bbox (fst s0) (snd s0)
                  = None)
              /\ nth n buffer' NaN = nth n buffer NaN)).
Proof.
  intros Hfx Hfy Hpx Hpy Hc s0 n.
  induction points as [|[i j] rest IH]; intros buffer Hpts Hlen.
  - exists buffer. split; [reflexivity|]. split; [reflexivity|].
    right. split; [left; intros H; exact H | reflexivity].
  - destruct (Hpts (i, j) (or_introl eq_refl))
      as [a [b [Ha [Hab [Hb [Hbb E]]]]]].
    injection E as -> ->.
    assert (Hrest : forall s, In s rest ->
              exists a b : Z,
                (0 <= a)%Z /\ (a * sx < tW)%Z /\ (0 <= b)%Z /\ (b * sy < tH)%Z
                /\ s = (of_Z (a * sx), of_Z (b * sy)))
      by (intros s Hs; apply Hpts; right; exact Hs).
    assert (Hhead : {(of_Z (a * sx), of_Z (b * sy)) = s0}
                    + {(a * sx <> px - px mod sx)%Z
                       \/ (b * sy <> py - py mod sy)%Z}).
    { destruct (Z.eq_dec (a * sx) (px - px mod sx)) as [E1 | N1];
        [|right; left; exact N1].
      destruct (Z.eq_dec (b * sy) (py - py mod sy)) as [E2 | N2];
        [|right; right; exact N2].
      left. unfold s0. rewrite E1, E2. reflexivity. }
    assert (Hdiff : (a * sx <> px - px mod sx)%Z
                    \/ (b * sy <> py - py mod sy)%Z ->
                    (of_Z (a * sx), of_Z (b * sy)) <> s0).
    { intros Hne E. unfold s0 in E. injection E as E1 E2. lia. }
    cbn [renderSamples].
    destruct (ColorGrid_sample transform this bbox
                (of_Z (a * sx)) (of_Z (b * sy))) as [value|] eqn:Esample.
    + rewrite tile_width, tile_steps; cbn [gridStepX gridStepY].
      assert (Hax : (a * sx + sx <= tW)%Z).
      { assert (a < nx)%Z by nia. nia. }
      assert (Hby : (b * sy + sy <= tH)%Z).
      { assert (b < ny)%Z by nia. nia. }
      assert (Ha0 : (0 <= a * sx)%Z) by nia.
      assert (Hb0 : (0 <= b * sy)%Z) by nia.
      destruct (fillBlock_cell fuel tW tH sx sy (a * sx) (b * sy) px py c
                  value buffer ltac:(lia) ltac:(lia) Ha0 Hax Hb0 Hby Hlen
                  Hpx Hpy Hc) as [b1 [Efill [Hlen1 Hcell]]].
      rewrite Efill.
      destruct (IH b1 Hrest) as [b2 [Er [Hlen2 Hcase]]]; [lia|].
      fold n in Hcell.
      exists b2. split; [exact Er|]. split; [lia|].
      destruct Hcase as [[Hin Hv] | [Hskip Hsame]].
      * left. split; [right; exact Hin | exact Hv].
      * destruct Hhead as [Es0 | Hne].
        -- left. split; [left; exact Es0|]. exists value.
           rewrite <- Es0. cbn [fst snd]. split; [exact Esample|].
           rewrite Hsame, Hcell.
           unfold s0 in Es0. injection Es0 as E1 E2.
           apply (block_origin sx a px step_x) in E1.
           apply (block_origin sy b py step_y) in E2.
           replace ((a * sx <=? px) && (px <? a * sx + sx)
                    && (b * sy <=? py) && (py <? b * sy + sy))%Z with true;
             [reflexivity|].
           symmetry. rewrite !andb_true_iff, !Z.leb_le, !Z.ltb_lt. lia.
        -- right. split.
           ++ destruct Hskip as [Hnot | Hnone]; [|right; exact Hnone].
              left. intros [Eh | Hin]; [apply (Hdiff Hne Eh) | exact (Hnot Hin)].
           ++ rewrite Hsame, Hcell.
              destruct ((a * sx <=? px) && (px <? a * sx + sx)
                        && (b * sy <=? py) && (py <? b * sy + sy))%Z eqn:Hin;
                [|reflexivity].
              rewrite !andb_true_iff, !Z.leb_le, !Z.ltb_lt in Hin.
              exfalso.
              assert (E1 : (a * sx = px - px mod sx)%Z)
                by (apply block_origin; lia).
              assert (E2 : (b * sy = py - py mod sy)%Z)
                by (apply block_origin; lia).
              destruct Hne; contradiction.
    + destruct (IH buffer Hrest Hlen) as [b2 [Er [Hlen2 Hcase]]].
      exists b2. split; [exact Er|]. split; [exact Hlen2|].
      destruct Hcase as [[Hin Hv] | [Hskip Hsame]].
      * left. split; [right; exact Hin | exact Hv].
      * right. split; [|exact Hsame].
        destruct Hhead as [Es0 | Hne].
        -- right. rewrite <- Es0. exact Esample.
        -- destruct Hskip as [Hnot | Hnone]; [|right; exact Hnone].
           left. intros [Eh | Hin]; [apply (Hdiff Hne Eh) | exact (Hnot Hin)].
Qed.

End RenderedPixels.

Lemma nth_zeros (n m : nat) :
  (n < m)%nat -> nth n (repeat (of_Z 0) m) NaN = of_Z 0.
Proof.
  intros H. rewrite (nth_indep _ NaN (of_Z 0)) by (rewrite repeat_length; lia).
  apply nth_repeat.
Qed.

(** X20.  A raster tile of tW by tH pixels whose strides divide the tile
    sides: [ColorGrid.loadTile] returns a buffer of tW * tH * 4 bytes in
    which every pixel carries the sample of the stride block it lies in, the
    block with top-left corner (px - px mod gridStepX, py - py mod
    gridStepY).  If that sample is drawn with grey value v, the pixel is
    (v, v, v, 255), with v stored as a byte; if the sample is skipped the
    pixel stays (0, 0, 0, 0).  No block spills into a neighbouring block or
    row. *)
Theorem ColorGrid_render_blocks
    (transform : num -> num -> num * num)
    (getOrigin : num -> num * num) (getResolution : num -> num)
    (this : ColorGrid) (tW tH sx sy nx ny : Z) (hx hy : num)
    (fuel : nat) (z x y : num) :
  tileW this = of_Z tW -> tileH this = of_Z tH ->
  steps this = mkSteps (of_Z sx) (of_Z sy) hx hy ->
  (1 <= sx)%Z -> (1 <= sy)%Z -> (1 <= nx)%Z -> (1 <= ny)%Z ->
  (tW = nx * sx)%Z -> (tH = ny * sy)%Z ->
  (tW * tH * 4 <= 2 ^ 53 - 1)%Z ->
  (tW < Z.of_nat fuel)%Z -> (tH < Z.of_nat fuel)%Z ->
  let bbox :=
    tileBBox (getOrigin z) (getResolution z) (tileW this) (tileH this) x y in
  exists buffer : list num,
    ColorGrid_render transform getOrigin getResolution fuel this z x y
    = Some (Allocated buffer)
    /\ Z.of_nat (List.length buffer) = (tW * tH * 4)%Z
    /\ forall px py c : Z,
         (0 <= px < tW)%Z -> (0 <= py < tH)%Z -> (0 <= c <= 3)%Z ->
         nth (Z.to_nat ((py * tW + px) * 4 + c)) buffer NaN
         = match ColorGrid_sample transform this bbox
                   (of_Z (px - px mod sx)) (of_Z (py - py mod sy)) with
           | Some value => pixelByte value c
           | None => of_Z 0
           end.
Proof.
  intros EW EH Esteps Hsx Hsy Hnx Hny HtW HtH Hmax HfW HfH bbox.
  assert (HtW1 : (sx <= tW)%Z) by nia.
  assert (HtH1 : (sy <= tH)%Z) by nia.
  destruct (samplePoints_integer fuel tW tH sx sy hx hy Hsx Hsy)
    as [points [Epts Hpts]]; [lia | lia |].
  set (zeros := repeat (of_Z 0) (Z.to_nat (tW * tH * 4))).
  assert (Hzlen : Z.of_nat (List.length zeros) = (tW * tH * 4)%Z)
    by (unfold zeros; rewrite repeat_length; nia).
  assert (Ealloc : newUint8Array (of_Z tW * of_Z tH * of_Z 4)%js
                   = Allocated zeros).
  { rewrite !mul_of_Z. unfold of_Z at 1.
    replace (Z.to_nat (tW * tH * 4)) with (Z.to_nat (tW * tH * 4)) in *
      by reflexivity.
    rewrite (newUint8Array_integer _ (Z.to_nat (tW * tH * 4)));
      [reflexivity | rewrite Z2Nat.id by nia; reflexivity
       | rewrite Z2Nat.id by nia; exact Hmax]. }
  assert (Hform : forall s, In s points ->
            exists a b : Z,
              (0 <= a)%Z /\ (a * sx < tW)%Z /\ (0 <= b)%Z /\ (b * sy < tH)%Z
              /\ s = (of_Z (a * sx), of_Z (b * sy)))
    by (intros s Hs; apply Hpts; exact Hs).
  destruct (renderSamples_cell transform this tW tH sx sy nx ny hx hy
              EW Esteps Hsx Hsy HtW HtH fuel bbox 0 0 0
              ltac:(lia) ltac:(lia) ltac:(lia) ltac:(lia) ltac:(lia)
              points zeros Hform Hzlen) as [buffer [Er [Hlen _]]].
  exists buffer.
  split.
  { unfold ColorGrid_render. fold bbox. rewrite EW, EH, Ealloc.
    rewrite <- EW, <- EH, Esteps, EW, EH, Epts, Er. reflexivity. }
  split; [lia|].
  intros px py c Hpx Hpy Hc.
  destruct (renderSamples_cell transform this tW tH sx sy nx ny hx hy
              EW Esteps Hsx Hsy HtW HtH fuel bbox px py c
              ltac:(lia) ltac:(lia) Hpx Hpy Hc
              points zeros Hform Hzlen) as [buffer' [Er' [_ Hcase]]].
  rewrite Er in Er'. injection Er' as <-.
  cbn [fst snd] in Hcase.
  destruct Hcase as [[_ [value [Es Hv]]] | [[Hnot | Hnone] Hsame]].
  - rewrite Es. exact Hv.
  - exfalso. apply Hnot. apply Hpts.
    pose proof (Z.mod_pos_bound px sx ltac:(lia)) as Mx.
    pose proof (Z.mod_pos_bound py sy ltac:(lia)) as My.
    pose proof (Z.div_mod px sx ltac:(lia)) as Dx.
    pose proof (Z.div_mod py sy ltac:(lia)) as Dy.
    exists (px / sx)%Z, (py / sy)%Z.
    assert (0 <= px / sx)%Z by (apply Z.div_pos; lia).
    assert (0 <= py / sy)%Z by (apply Z.div_pos; lia).
    repeat split; try lia; try nia.
    f_equal; f_equal; lia.
  - rewrite Hnone, Hsame. apply nth_zeros.
    assert (((py * tW + px) * 4 + c < tW * tH * 4)%Z) by nia.
    assert (0 <= (py * tW + px) * 4 + c)%Z by nia. lia.
Qed.

Lemma ColorGrid_render_blocks_witness :
  let this :=
    mkSource Grid (option Range)
      [of_Z 10; of_Z 20; of_Z 30; of_Z 40] None 2%Z 2%Z
      (mkExtent 0%Z 0%Z 4%Z 2%Z) 4%Z 2%Z
      (mkSteps 2%Z 2%Z 1%Z 1%Z) (mkParams 0%Z 0%Z 0%Z 0%Z 0%Z 0%Z) in
  let origin := fun _ : num => (of_Z 0, of_Z 2) in
  let resolution := fun _ : num => of_Z 1 in
  exists buffer : list num,
    ColorGrid_render pair origin resolution 5 this 0%Z 0%Z 0%Z
    = Some (Allocated buffer)
    /\ Z.of_nat (List.length buffer) = 32%Z
    /\ nth (Z.to_nat ((1 * 4 + 3) * 4 + 0)) buffer NaN
       = match ColorGrid_sample pair this
                 (tileBBox (origin 0%Z) (resolution 0%Z) 4%Z 2%Z 0%Z 0%Z)
                 (of_Z 2) (of_Z 0) with
         | Some value => pixelByte value 0
         | None => of_Z 0
         end.
Proof.
  intros this origin resolution.
  destruct (ColorGrid_render_blocks pair origin resolution this
              4 2 2 2 2 1 1%Z 1%Z 5 0%Z 0%Z 0%Z)
    as [buffer [E [Hlen Hpix]]]; try reflexivity; try lia.
  exists buffer. split; [exact E|]. split; [exact Hlen|].
  apply (Hpix 3 1 0)%Z; lia.
Defined.

(** ** The antimeridian seam *)



